(** * mindharbor-bot: the vector store (vector_store.py) and the token
      bookkeeping (db.py), embedded in Rocq.

    The Python classes are modelled by explicit state passing:
    - [SimpleVectorStore] holds the two dicts [self.vectors] and [self.texts],
      the state of [self.conn] and the rows of the SQLite table [vectors] the
      connection reaches;
    - Python dicts keep insertion order, which decides the order of the
      candidates and hence how ties are ranked, so a dict is an association
      list with Python's assignment semantics (overwrite in place, or append);
    - exceptions are an outcome [Raise e] that keeps the state mutated so far;
    - numpy, pickle and the sentence-transformers model are libraries outside
      the repository: they are interfaces (type classes) here, with a binary64
      instance used to run the model on examples. *)

From Stdlib Require Import ZArith List String Floats.
From Stdlib Require Import DecimalString.
From stdpp Require Import base list strings gmap pretty.
Import ListNotations.
Open Scope string_scope.
Open Scope list_scope.
Open Scope nat_scope.

Set Warnings "-inexact-float,-clear-no-such-hyp".

(** ** Python dicts *)

Module PyDict.

(** a dict with string keys: its items, in insertion order *)
Abbreviation dict V := (list (string * V)).

(** [d[k]] (None stands for KeyError) *)
Fixpoint dict_get {V} (k : string) (d : dict V) : option V :=
  match d with
  | [] => None
  | (k', v) :: d' => if decide (k = k') then Some v else dict_get k d'
  end.

(** [d[k] = v]: an existing key keeps its position, a new key goes last. *)
Fixpoint dict_set {V} (k : string) (v : V) (d : dict V) : dict V :=
  match d with
  | [] => [(k, v)]
  | (k', v') :: d' =>
      if decide (k = k') then (k, v) :: d' else (k', v') :: dict_set k v d'
  end.

Definition keys {V} (d : dict V) : list string := d.*1.

(** number of entries stored under [k] *)
Definition entries {V} (k : string) (d : dict V) : nat :=
  length (filter (λ k', k' = k) (keys d)).

End PyDict.
Export PyDict.

(** ** The SQLite table [vectors (id TEXT PRIMARY KEY, text, vector BLOB)] *)

Module Sqlite.

Abbreviation row B := (string * string * B)%type.
Abbreviation table B := (list (row B)).

Definition row_id {B} (r : row B) : string := r.1.1.

(** [INSERT OR REPLACE]: the row in conflict on the primary key is deleted
    and the new row is inserted (with a fresh rowid, so it is scanned last). *)
Definition insert_or_replace {B} (id text : string) (blob : B) (t : table B)
  : table B :=
  filter (λ r, row_id r ≠ id) t ++ [(id, text, blob)].

Definition rows_of {B} (id : string) (t : table B) : table B :=
  filter (λ r, row_id r = id) t.

End Sqlite.
Export Sqlite.

(** ** The libraries the store calls *)

(** numpy on the 1-d arrays and scalars the store handles. [np_dot] and
    [np_norm] are left to the instance (numpy fixes no summation order);
    the arithmetic is total, as numpy's is (a division by zero gives an
    infinity or a NaN, not an exception). *)
Class Numpy (F : Type) := {
  np_dot : list F → list F → F;
  np_norm : list F → F;
  f_add : F → F → F;
  f_mul : F → F → F;
  f_div : F → F → F;
  f_eps : F;                  (* the literal 1e-8 *)
  f_ltb : F → F → bool;       (* [<], the only comparison list.sort uses *)
  f_leb : F → F → bool;       (* [<=] *)
}.

(** pickle.dumps / pickle.loads on vectors; [None] is an unpickling error. *)
Class Pickle (F B : Type) := {
  dumps : list F → B;
  loads : B → option (list F);
}.

(** SentenceTransformer.encode on one string and on a list of strings. *)
Class Embedder (F : Type) := {
  encode : string → list F;
  encode_batch : list string → list (list F);
}.

(** the exceptions the store can raise *)
Inductive exn : Type :=
  | ProgrammingError      (* sqlite3: operation on a closed database *)
  | UnpicklingError       (* pickle.loads on a blob that is no pickle *)
  | ValueError            (* np.dot: shapes not aligned *)
  | KeyError (k : string).

Inductive outcome (A : Type) : Type :=
  | Ok (a : A)
  | Raise (e : exn).
Arguments Ok {A} a.
Arguments Raise {A} e.

(** the state of [self.conn], an sqlite3.Connection *)
Inductive connection : Type := ConnOpen | ConnClosed.

(** Python's [zip] of three lists stops at the shortest. *)
Fixpoint zip3 {X Y Z} (xs : list X) (ys : list Y) (zs : list Z)
  : list (X * Y * Z) :=
  match xs, ys, zs with
  | x :: xs', y :: ys', z :: zs' => (x, y, z) :: zip3 xs' ys' zs'
  | _, _, _ => []
  end.

(** Python's slice [l[:k]]: a negative [k] counts from the end. *)
Definition slice_to {A} (k : Z) (l : list A) : list A :=
  if (0 <=? k)%Z then take (Z.to_nat k) l
  else take (Z.to_nat (Z.of_nat (length l) + k)) l.

(** [f"doc_{i}" for i in range(n)] *)
Definition default_ids (n : nat) : list string :=
  (λ i : nat, "doc_" +:+ pretty i) <$> seq 0 n.

Section VectorStore.
Context {F B : Type} `{!Numpy F} `{!Pickle F B} `{!Embedder F}.

Record SimpleVectorStore : Type := {
  vectors : dict (list F);
  texts : dict string;
  conn : connection;
  rows : table B;           (* the table behind [conn], at [db_path] *)
}.

(** *** Exceptions and state *)

Definition M (A : Type) : Type :=
  SimpleVectorStore → outcome A * SimpleVectorStore.

#[global] Instance M_ret : MRet M := λ A a s, (Ok a, s).

#[global] Instance M_bind : MBind M := λ A A' f m s,
  match m s with
  | (Ok a, s') => f a s'
  | (Raise e, s') => (Raise e, s')
  end.

Definition raise {A} (e : exn) : M A := λ s, (Raise e, s).
Definition gets {A} (f : SimpleVectorStore → A) : M A := λ s, (Ok (f s), s).
Definition modify (f : SimpleVectorStore → SimpleVectorStore) : M unit :=
  λ s, (Ok tt, f s).

(** [for x in xs: body(x)] *)
Fixpoint for_each {X} (xs : list X) (body : X → M unit) : M unit :=
  match xs with
  | [] => mret tt
  | x :: xs' => body x ;; for_each xs' body
  end.

(** [acc = []; for x in xs: acc.append(body(x))] *)
Fixpoint for_append {X Y} (xs : list X) (body : X → M Y) : M (list Y) :=
  match xs with
  | [] => mret []
  | x :: xs' => y ← body x; ys ← for_append xs' body; mret (y :: ys)
  end.

(** *** Field assignments *)

Definition set_vector (k : string) (v : list F) (s : SimpleVectorStore) :=
  {| vectors := dict_set k v (vectors s); texts := texts s;
     conn := conn s; rows := rows s |}.

Definition set_text (k t : string) (s : SimpleVectorStore) :=
  {| vectors := vectors s; texts := dict_set k t (texts s);
     conn := conn s; rows := rows s |}.

Definition set_rows (t : table B) (s : SimpleVectorStore) :=
  {| vectors := vectors s; texts := texts s; conn := conn s; rows := t |}.

(** *** sqlite3 *)

(** [self.conn.cursor()], [cursor.execute] and [self.conn.commit()] raise
    ProgrammingError on a closed connection. *)
Definition cursor : M unit := λ s,
  match conn s with
  | ConnOpen => (Ok tt, s)
  | ConnClosed => (Raise ProgrammingError, s)
  end.

Definition execute_insert_or_replace (id text : string) (blob : B) : M unit :=
  cursor ;; modify (λ s, set_rows (insert_or_replace id text blob (rows s)) s).

Definition execute_select_all : M (table B) := cursor ;; gets rows.

(** Nothing can fail between the first [execute] and the [commit] of
    [add_texts], so the rows written are the rows committed. *)
Definition commit : M unit := cursor.

(** *** SimpleVectorStore *)

(** [SimpleVectorStore(db_path)] on a database file holding [disk]:
    empty dicts, a fresh connection, [CREATE TABLE IF NOT EXISTS]. *)
Definition init (disk : table B) : SimpleVectorStore :=
  {| vectors := []; texts := []; conn := ConnOpen; rows := disk |}.

Definition add_texts (txts : list string) (ids : option (list string))
  : M (list string) :=
  let ids := match ids with
             | None => default_ids (length txts)
             | Some ids => ids
             end in
  let embeddings := encode_batch txts in
  cursor ;;
  for_each (zip3 ids txts embeddings) (λ '(doc_id, text, embedding),
    let vector_bytes := dumps embedding in
    execute_insert_or_replace doc_id text vector_bytes ;;
    modify (set_vector doc_id embedding) ;;
    modify (set_text doc_id text)) ;;
  commit ;;
  mret ids.

Definition _load_all_vectors : M unit :=
  cursor ;;
  fetched ← execute_select_all;
  for_each fetched (λ '(doc_id, text, vector_bytes),
    match loads vector_bytes with
    | Some vector => modify (set_vector doc_id vector)
    | None => raise UnpicklingError
    end ;;
    modify (set_text doc_id text)).

(** [np.dot(q, v) / (np.linalg.norm(q) * np.linalg.norm(v) + 1e-8)];
    np.dot raises ValueError when the two lengths differ. *)
Definition cosine (query_embedding vector : list F) : M F :=
  if decide (length query_embedding = length vector) then
    mret (f_div (np_dot query_embedding vector)
                (f_add (f_mul (np_norm query_embedding) (np_norm vector))
                       f_eps))
  else raise ValueError.

(** [self.texts[doc_id]] *)
Definition texts_getitem (doc_id : string) : M string := λ s,
  match dict_get doc_id (texts s) with
  | Some t => (Ok t, s)
  | None => (Raise (KeyError doc_id), s)
  end.

(** [similarities.sort(key=lambda x: x[1], reverse=True)]: a stable sort,
    descending; equal scores keep the order of the candidates. It is
    written as a stable insertion sort, which is what any stable sort
    computes when [<] is a strict weak order on the scores. *)
Fixpoint insert_desc (x : string * F) (l : list (string * F))
  : list (string * F) :=
  match l with
  | [] => [x]
  | y :: l' => if f_ltb x.2 y.2 then y :: insert_desc x l' else x :: y :: l'
  end.

Definition sort_desc (l : list (string * F)) : list (string * F) :=
  foldr insert_desc [] l.

Definition similarity_search (query : string) (k : Z)
  : M (list (string * F)) :=
  let query_embedding := encode query in
  cached ← gets vectors;
  (if decide (cached = []) then _load_all_vectors else mret tt) ;;
  candidates ← gets vectors;
  similarities ← for_append candidates (λ '(doc_id, vector),
    sim ← cosine query_embedding vector;
    text ← texts_getitem doc_id;
    mret (text, sim));
  mret (slice_to k (sort_desc similarities)).

(** [if self.conn: self.conn.close()]; the connection object stays in
    [self.conn], closed. *)
Definition close : M unit :=
  modify (λ s, {| vectors := vectors s; texts := texts s;
                  conn := ConnClosed; rows := rows s |}).

End VectorStore.

Arguments SimpleVectorStore : clear implicits.
Arguments M : clear implicits.

(** ** A binary64 instance, to run the store on examples

    The embeddings of the model are float32 arrays; binary64 scalars, a
    two-dimensional stand-in for the model and a stand-in for pickle are
    enough to run the store on small inputs. The theorems below hold for
    every instance. *)

Module Fixture.

(** numpy over binary64 scalars, sums taken left to right *)
Definition dot64 (a b : list float) : float :=
  foldl (λ acc p, PrimFloat.add acc (PrimFloat.mul p.1 p.2)) 0%float (zip a b).

#[export] Instance numpy64 : Numpy float := {|
  np_dot := dot64;
  np_norm v := PrimFloat.sqrt (dot64 v v);
  f_add := PrimFloat.add;
  f_mul := PrimFloat.mul;
  f_div := PrimFloat.div;
  f_eps := 1e-8%float;
  f_ltb := PrimFloat.ltb;
  f_leb := PrimFloat.leb;
|}.

(** a stand-in for pickle: a blob is either the pickle of a vector or
    bytes that are no pickle at all *)
Inductive blob : Type :=
  | Pickled (v : list float)
  | Garbage.

#[export] Instance pickle64 : Pickle float blob := {|
  dumps := Pickled;
  loads b := match b with Pickled v => Some v | Garbage => None end;
|}.

(** a stand-in for the embedding model, of dimension 2 *)
Definition embed (t : string) : list float :=
  if decide (t = "a") then [1; 0]%float
  else if decide (t = "b") then [0; 1]%float
  else if decide (t = "c") then [0.9; 0.1]%float
  else [0; 0]%float.

#[export] Instance embedder64 : Embedder float := {|
  encode := embed;
  encode_batch := map embed;
|}.

Definition store64 : Type := SimpleVectorStore float blob.

(** a fresh store on an empty database *)
Definition empty64 : store64 := init [].

(** the store after [add_texts(["a", "b", "c"], ids=["x", "y", "z"])] *)
Definition abc64 : store64 :=
  (add_texts ["a"; "b"; "c"] (Some ["x"; "y"; "z"]) empty64).2.

(** a fresh store on a table of three rows whose second blob is no pickle *)
Definition corrupt64 : store64 :=
  init [("x", "a", Pickled [1; 0]%float); ("y", "b", Garbage);
        ("z", "c", Pickled [0.9; 0.1]%float)].

End Fixture.

(** ** db.py: the [users] table and the token counter *)

Module Db.

(** a row of [users], without its key [user_id]; [tokens_remaining] is an
    SQLite INTEGER (the code writes 0 and sums of integers into it, never
    NULL), [pass_expiry] a TEXT or NULL *)
Record user : Type := {
  tokens_remaining : Z;
  pass_expiry : option string;
}.

(** the table, keyed by its primary key; every function of db.py opens
    its own connection, commits and closes, so the table is the whole state *)
Abbreviation users := (gmap string user).

Definition new_user : user :=
  {| tokens_remaining := 0; pass_expiry := None |}.

(** SELECT the row, or INSERT one with no tokens; returns the row as a dict *)
Definition get_or_create_user (user_id : string) (db : users)
  : user * users :=
  match db !! user_id with
  | Some row => (row, db)
  | None => (new_user, <[user_id := new_user]> db)
  end.

(** [UPDATE users SET tokens_remaining = tokens_remaining + ? WHERE user_id = ?] *)
Definition update_tokens (delta : Z) (user_id : string) (db : users) : users :=
  alter (λ u, {| tokens_remaining := tokens_remaining u + delta;
                 pass_expiry := pass_expiry u |}) user_id db.

Definition decrement_token (user_id : string) (db : users) : bool * users :=
  let '(u, db) := get_or_create_user user_id db in
  if (0 <? tokens_remaining u)%Z
  then (true, update_tokens (-1) user_id db)
  else (false, db).


(** what [get_or_create_user(user_id)["tokens_remaining"]] reads *)
Definition tokens_of (user_id : string) (db : users) : Z :=
  tokens_remaining (get_or_create_user user_id db).1.

End Db.

(** ** Vocabulary of the statements *)

Section Vocabulary.
Context {F B : Type} `{!Numpy F} `{!Pickle F B} `{!Embedder F}.

(** The state after one iteration of the loop of [add_texts] on an open
    connection: the row is replaced, then the two dict entries are assigned. *)
Definition upsert (s : SimpleVectorStore F B) (r : string * string * list F)
  : SimpleVectorStore F B :=
  set_text r.1.1 r.1.2
    (set_vector r.1.1 r.2
       (set_rows (insert_or_replace r.1.1 r.1.2 (dumps r.2) (rows s)) s)).

(** The state after one iteration of the loop of [_load_all_vectors] on a
    row whose blob unpickles to [v]. *)
Definition cache_row (s : SimpleVectorStore F B) (r : string * string * list F)
  : SimpleVectorStore F B :=
  set_text r.1.1 r.1.2 (set_vector r.1.1 r.2 s).

(** The rows [_load_all_vectors] gets through, unpickled: all of them, or
    those before the first blob that does not unpickle. *)
Fixpoint unpickled (t : table B) : list (string * string * list F) :=
  match t with
  | [] => []
  | (doc_id, text, vector_bytes) :: t' =>
      match loads vector_bytes with
      | Some vector => (doc_id, text, vector) :: unpickled t'
      | None => []
      end
  end.

(** The scoring and ranking part of [similarity_search], after the cache
    has been hydrated. *)
Definition rank (query_embedding : list F) (k : Z)
  : M F B (list (string * F)) :=
  candidates ← gets vectors;
  similarities ← for_append candidates (λ '(doc_id, vector),
    sim ← cosine query_embedding vector;
    text ← texts_getitem doc_id;
    mret (text, sim));
  mret (slice_to k (sort_desc similarities)).

(** A row that [_load_all_vectors] can read, into a vector of dimension [n]. *)
Definition loadable (n : nat) (r : row B) : Prop :=
  ∃ v, loads r.2 = Some v ∧ length v = n.

(** A cache entry the scoring loop can score against a query of dimension
    [n]: the shapes agree and the id has a text. *)
Definition scorable (n : nat) (ts : dict string) (kv : string * list F) : Prop :=
  length kv.2 = n ∧ is_Some (dict_get kv.1 ts).

(** The value of the cosine expression of the scoring loop. *)
Definition similarity (q v : list F) : F :=
  f_div (np_dot q v) (f_add (f_mul (np_norm q) (np_norm v)) f_eps).

(** [p] is the (text, similarity) pair the scoring loop appends for the
    cache entry [kv]. *)
Definition scored (q : list F) (ts : dict string) (kv : string * list F)
  (p : string * F) : Prop :=
  dict_get kv.1 ts = Some p.1 ∧ p.2 = similarity q kv.2.

(** What [similarity_search(query, _)] needs in order to return: either
    cached entries that can be scored, or an empty cache on an open
    connection whose rows all unpickle to vectors of the query's shape. *)
Definition searchable (query : string) (s : SimpleVectorStore F B) : Prop :=
  if decide (vectors s = []) then
    conn s = ConnOpen ∧ Forall (loadable (length (encode query))) (rows s)
  else Forall (scorable (length (encode query)) (texts s)) (vectors s).

(** The state the hydration step of [similarity_search] leaves: the cache
    as it was when it held something, else the cache filled from the rows
    that unpickle. *)
Definition hydrated (s : SimpleVectorStore F B) : SimpleVectorStore F B :=
  if decide (vectors s = []) then foldl cache_row s (unpickled (rows s))
  else s.

(** [<] and [<=] agree on the scores of [l]: of two scores one is [<=] the
    other, as for floats that are no NaN. *)
Definition comparable (l : list F) : Prop :=
  ∀ a b, a ∈ l → b ∈ l →
    (f_ltb a b = true → f_leb a b = true) ∧
    (f_ltb a b = false → f_leb b a = true).

(** Each result is followed by one whose similarity is not greater. *)
Definition descending (res : list (string * F)) : Prop :=
  ∀ i p p', res !! i = Some p → res !! S i = Some p' → f_leb p'.2 p.2 = true.

(** The two dicts hold the same ids in the same order, once each, and the
    table respects its primary key. *)
Definition well_formed (s : SimpleVectorStore F B) : Prop :=
  keys (vectors s) = keys (texts s) ∧ NoDup (keys (vectors s)) ∧
  NoDup (row_id <$> rows s).

(** Every vector of the store, cached or pickled in a row, has [d] entries
    (one embedding model per store). *)
Definition dimension (d : nat) (s : SimpleVectorStore F B) : Prop :=
  Forall (λ kv, length kv.2 = d) (vectors s) ∧ Forall (loadable d) (rows s).

(** The last (text, embedding) a batch pairs with [id], if any. *)
Definition last_write (id : string) (batch : list (string * string * list F))
  : option (string * list F) :=
  (λ r, (r.1.2, r.2)) <$> last (filter (λ r, r.1.1 = id) batch).

End Vocabulary.

(** ** The process-wide store of vector_store.py *)

Section GlobalStore.
Context {F B : Type} `{!Numpy F} `{!Pickle F B} `{!Embedder F}.

(** The module global [_store] (None, or the store object), and the table
    in the database file; the file outlives the store object. While a
    store is live its [rows] are the table, and [disk] is brought up to
    date whenever a method has run on it. *)
Record process : Type := {
  _store : option (SimpleVectorStore F B);
  disk : table B;
}.

(** the interpreter right after the import: [_store = None] *)
Definition start (file : table B) : process :=
  {| _store := None; disk := file |}.

(** [if _store is None: _store = SimpleVectorStore()]; [return _store] *)
Definition get_vector_store (p : process) : SimpleVectorStore F B * process :=
  match _store p with
  | Some s => (s, p)
  | None => let s := init (disk p) in (s, {| _store := Some s; disk := disk p |})
  end.

(** [if _store: _store.close(); _store = None]: a store object has neither
    [__bool__] nor [__len__], so it is true whenever it is not None. *)
Definition close_vector_store (p : process) : process :=
  match _store p with
  | Some s => {| _store := None; disk := rows (close s).2 |}
  | None => p
  end.

(** [get_vector_store().method(...)]: the method runs on the object the
    global refers to, which keeps what the method did to it. *)
Definition on_store {A} (method : M F B A) (p : process) : outcome A * process :=
  let '(s, p') := get_vector_store p in
  let '(r, s') := method s in
  (r, {| _store := Some s'; disk := rows s' |}).

(** Every cached vector is what the row of its id unpickles to, and the
    text cached with it is the text of that row. *)
Definition backed (s : SimpleVectorStore F B) : Prop :=
  ∀ id v, dict_get id (vectors s) = Some v →
    ∃ t b, dict_get id (texts s) = Some t ∧
           rows_of id (rows s) = [(id, t, b)] ∧ loads b = Some v.

End GlobalStore.

Arguments process : clear implicits.

(** [n] calls of [decrement_token(user_id)] in a row: how many returned
    True, and the table they leave *)
Fixpoint spend (n : nat) (user_id : string) (db : Db.users) : nat * Db.users :=
  match n with
  | 0 => (0, db)
  | S n' =>
      let '(ok, db') := Db.decrement_token user_id db in
      let '(m, db'') := spend n' user_id db' in
      ((if ok then S m else m), db'')
  end.

(** ** db.py: the pass and its expiry *)

(** Python's datetime as far as db.py uses it. The clock is not part of
    the model: the value of [datetime.now(timezone.utc)] at the call is an
    argument of the two functions that read it. *)
Class Datetime (T : Type) := {
  dt_add_days : T → Z → option T;     (* [t + timedelta(days=d)]; None: OverflowError *)
  isoformat : T → string;
  fromisoformat : string → option T;  (* None: ValueError *)
  dt_gt : T → T → option bool;        (* [>]; None: TypeError (naive against aware) *)
}.

Module DbPass.
Import Db.

Section Pass.
Context {T : Type} `{!Datetime T}.

(** the expiry is computed before the table is touched, so an overflow
    (None) leaves the table as it was *)
Definition set_pass_expiry (now : T) (user_id : string) (days : Z) (db : users)
  : option users :=
  match dt_add_days now days with
  | None => None
  | Some expiry_dt =>
      let expiry := isoformat expiry_dt in
      let '(_, db) := get_or_create_user user_id db in
      Some (alter (λ u, {| tokens_remaining := tokens_remaining u;
                           pass_expiry := Some expiry |}) user_id db)
  end.

(** [if not expiry] holds for NULL and for the empty string; any exception
    of the parse or of the comparison is caught and gives False *)
Definition has_valid_pass (now : T) (user_id : string) (db : users)
  : bool * users :=
  let '(u, db) := get_or_create_user user_id db in
  match pass_expiry u with
  | None => (false, db)
  | Some expiry =>
      if decide (expiry = "") then (false, db)
      else match fromisoformat expiry with
           | Some exp_dt =>
               match dt_gt exp_dt now with
               | Some b => (b, db)
               | None => (false, db)
               end
           | None => (false, db)
           end
  end.

End Pass.

(** an instance to run the two functions: times in seconds, printed in
    decimal *)
#[export] Instance seconds : Datetime Z := {|
  dt_add_days t d := Some (t + 86400 * d)%Z;
  isoformat t := NilZero.string_of_int (Z.to_int t);
  fromisoformat e := Z.of_int <$> NilZero.int_of_string e;
  dt_gt a b := Some (b <? a)%Z;
|}.

End DbPass.

(** a new store object on the table the store of three records wrote *)
Definition reopened64 : Fixture.store64 := init (rows Fixture.abc64).

(** a fresh store on a table that holds, beside a vector of the model, a
    vector of three entries written under another model *)
Definition mixed64 : Fixture.store64 :=
  init [("x", "a", Fixture.Pickled [1; 0]%float);
        ("w", "old", Fixture.Pickled [1; 0; 0]%float)].

(** membership in a concrete list, case by case *)
Ltac elem_of_cases H :=
  repeat (apply elem_of_cons in H as [->|H]); try by apply elem_of_nil in H.

(** * Properties *)

(** ** Python dicts *)

Section DictFacts.
Context {V : Type}.
Implicit Types (k : string) (v : V) (d : dict V).

Lemma dict_get_set_eq k v d : dict_get k (dict_set k v d) = Some v.
Proof.
  induction d as [|[k' v'] d IH]; simpl.
  - by rewrite decide_True.
  - destruct (decide (k = k')) as [->|Hne]; simpl.
    + by rewrite decide_True.
    + by rewrite decide_False.
Qed.

Lemma dict_get_set_ne k k' v d :
  k ≠ k' → dict_get k' (dict_set k v d) = dict_get k' d.
Proof.
  intros Hne. induction d as [|[k0 v0] d IH]; simpl.
  - by rewrite decide_False.
  - destruct (decide (k = k0)) as [->|Hne0]; simpl.
    + by rewrite !decide_False.
    + by rewrite IH.
Qed.

Lemma dict_get_None k d : dict_get k d = None ↔ k ∉ keys d.
Proof.
  unfold keys. induction d as [|[k' v'] d IH]; simpl.
  - split; [intros _; apply not_elem_of_nil | done].
  - rewrite not_elem_of_cons. destruct (decide (k = k')) as [->|Hne].
    + split; [done | intros [? _]; done].
    + rewrite IH. split; [by intros ? | by intros [_ ?]].
Qed.

Lemma dict_get_is_Some k d : is_Some (dict_get k d) ↔ k ∈ keys d.
Proof.
  rewrite <- not_eq_None_Some, dict_get_None.
  destruct (decide (k ∈ keys d)); naive_solver.
Qed.

Lemma dict_get_elem_of k v d : dict_get k d = Some v → (k, v) ∈ d.
Proof.
  induction d as [|[k' v'] d IH]; simpl; [done|].
  destruct (decide (k = k')) as [->|Hne].
  - intros [= ->]. left.
  - intros H. right. by apply IH.
Qed.

Lemma elem_of_dict_get k v d :
  NoDup (keys d) → (k, v) ∈ d → dict_get k d = Some v.
Proof.
  unfold keys. induction d as [|[k' v'] d IH]; simpl.
  - intros _ H. by apply elem_of_nil in H.
  - rewrite NoDup_cons. intros [Hk' Hnd] [[= -> ->]|Hin]%elem_of_cons.
    + by rewrite decide_True.
    + rewrite decide_False; [by apply IH|].
      intros ->. apply Hk'. apply list_elem_of_fmap. by exists (k', v).
Qed.

Lemma keys_dict_set k v d :
  keys (dict_set k v d) = if decide (k ∈ keys d) then keys d else keys d ++ [k].
Proof.
  unfold keys. induction d as [|[k' v'] d IH].
  - destruct (decide (k ∈ _)) as [Hin|_]; [by apply elem_of_nil in Hin | done].
  - cbn [dict_set]. destruct (decide (k = k')) as [->|Hne].
    + clear IH. destruct (decide (k' ∈ ((k', v') :: d).*1)) as [_|Hin]; [done|].
      exfalso. apply Hin. rewrite fmap_cons. left.
    + rewrite !fmap_cons, IH. cbn [fst].
      destruct (decide (k ∈ d.*1)) as [Hin|Hnin];
        destruct (decide (k ∈ k' :: d.*1)) as [Hin'|Hnin']; try done.
      * exfalso. apply Hnin'. by right.
      * by apply elem_of_cons in Hin' as [?|?].
Qed.

Lemma NoDup_keys_dict_set k v d : NoDup (keys d) → NoDup (keys (dict_set k v d)).
Proof.
  intros Hnd. rewrite keys_dict_set. case_decide; [done|].
  apply NoDup_app. split_and!; [done | | apply NoDup_singleton].
  intros x Hx ->%list_elem_of_singleton. done.
Qed.

Lemma elem_of_keys_dict_set k k' v d :
  k' ∈ keys (dict_set k v d) ↔ k' = k ∨ k' ∈ keys d.
Proof.
  rewrite keys_dict_set. case_decide.
  - naive_solver.
  - rewrite elem_of_app, list_elem_of_singleton. naive_solver.
Qed.

Lemma filter_eq_absent k (l : list string) :
  k ∉ l → filter (λ k', k' = k) l = [].
Proof.
  induction l as [|k' l IH]; [done|].
  rewrite not_elem_of_cons. intros [Hne Hnin].
  rewrite filter_cons, decide_False by done. by apply IH.
Qed.

Lemma entries_NoDup k d : NoDup (keys d) → k ∈ keys d → entries k d = 1.
Proof.
  unfold entries. generalize (keys d). intros l.
  induction l as [|k' l IH]; intros Hnd Hin; [by apply elem_of_nil in Hin|].
  apply NoDup_cons in Hnd as [Hk' Hnd]. rewrite filter_cons.
  destruct (decide (k' = k)) as [->|Hne]; simpl.
  - by rewrite filter_eq_absent.
  - apply IH; [done|]. apply elem_of_cons in Hin as [->|]; done.
Qed.

Lemma entries_dict_set k v d : NoDup (keys d) → entries k (dict_set k v d) = 1.
Proof.
  intros Hnd. apply entries_NoDup; [by apply NoDup_keys_dict_set|].
  apply elem_of_keys_dict_set. by left.
Qed.

Lemma elem_of_dict_set k k' v v' d :
  (k', v') ∈ dict_set k v d → (k', v') = (k, v) ∨ (k', v') ∈ d.
Proof.
  induction d as [|[k0 v0] d IH]; cbn [dict_set].
  - intros ?%list_elem_of_singleton. by left.
  - destruct (decide (k = k0)) as [->|Hne].
    + intros [?|?]%elem_of_cons; [by left | right; by right].
    + intros [->|Hin]%elem_of_cons; [right; left|].
      destruct (IH Hin); [by left | right; by right].
Qed.

(** a run of assignments [d[key x] = val x for x in l] *)
Section Assignments.
Context {X : Type} (key : X → string) (val : X → V).

Let assign (d : dict V) (x : X) : dict V := dict_set (key x) (val x) d.

Lemma dict_get_assignments (l : list X) d k :
  dict_get k (foldl assign d l) =
    match last (filter (λ x, key x = k) l) with
    | Some x => Some (val x)
    | None => dict_get k d
    end.
Proof.
  induction l as [|x l IH] using rev_ind; [done|].
  rewrite foldl_snoc, filter_app. unfold assign at 1.
  destruct (decide (key x = k)) as [<-|Hne].
  - rewrite (filter_singleton_True (λ x', key x' = key x)) by done.
    by rewrite last_snoc, dict_get_set_eq.
  - rewrite (filter_singleton_False (λ x', key x' = k)) by done.
    by rewrite app_nil_r, dict_get_set_ne.
Qed.

Lemma keys_assignments (l : list X) d :
  keys (foldl assign d l) =
    foldl (λ ks k, if decide (k ∈ ks) then ks else ks ++ [k]) (keys d) (key <$> l).
Proof.
  induction l as [|x l IH] using rev_ind; [done|].
  rewrite fmap_app, list_fmap_singleton, !foldl_snoc. unfold assign at 1.
  by rewrite keys_dict_set, IH.
Qed.

Lemma elem_of_keys_assignments (l : list X) d k :
  k ∈ keys (foldl assign d l) ↔ k ∈ keys d ∨ k ∈ key <$> l.
Proof.
  induction l as [|x l IH] using rev_ind.
  - cbn [foldl fmap list_fmap]. rewrite elem_of_nil. tauto.
  - rewrite foldl_snoc. unfold assign at 1.
    rewrite elem_of_keys_dict_set, IH, fmap_app, elem_of_app.
    rewrite list_fmap_singleton, list_elem_of_singleton. tauto.
Qed.

Lemma elem_of_assignments (l : list X) d k v :
  (k, v) ∈ foldl assign d l → (k, v) ∈ d ∨ ∃ x, x ∈ l ∧ key x = k ∧ val x = v.
Proof.
  induction l as [|x l IH] using rev_ind; [by left|].
  rewrite foldl_snoc. unfold assign at 1.
  intros [[= -> ->]|Hin]%elem_of_dict_set.
  - right. exists x. split; [|done]. apply elem_of_app. right. left.
  - destruct (IH Hin) as [?|(x' & ? & ? & ?)]; [by left|].
    right. exists x'. split; [|done]. apply elem_of_app. by left.
Qed.

Lemma NoDup_keys_assignments (l : list X) d :
  NoDup (keys d) → NoDup (keys (foldl assign d l)).
Proof.
  intros Hnd. induction l as [|x l IH] using rev_ind; [done|].
  rewrite foldl_snoc. by apply NoDup_keys_dict_set.
Qed.

End Assignments.

End DictFacts.

(** ** The SQLite table *)

Section TableFacts.
Context {B : Type}.
Implicit Types (t : table B) (b : B).

Lemma rows_of_insert_eq id text b t :
  rows_of id (insert_or_replace id text b t) = [(id, text, b)].
Proof.
  unfold rows_of, insert_or_replace. rewrite filter_app.
  rewrite (filter_singleton_True (λ r : row B, row_id r = id)) by done.
  replace (filter _ (filter _ t)) with (@nil (row B)); [done|].
  symmetry. induction t as [|r t IH]; [done|].
  rewrite (filter_cons (λ r : row B, row_id r ≠ id)).
  destruct (decide (row_id r ≠ id)) as [Hne|Heq]; [|done].
  by rewrite (filter_cons_False (λ r : row B, row_id r = id)).
Qed.

Lemma rows_of_insert_ne id id' text b t :
  id ≠ id' → rows_of id' (insert_or_replace id text b t) = rows_of id' t.
Proof.
  intros Hne. unfold rows_of, insert_or_replace. rewrite filter_app.
  rewrite (filter_singleton_False (λ r : row B, row_id r = id')) by done.
  rewrite app_nil_r. induction t as [|r t IH]; [done|].
  rewrite (filter_cons (λ r : row B, row_id r ≠ id)).
  destruct (decide (row_id r ≠ id)) as [Hr|Hr].
  - rewrite !(filter_cons (λ r : row B, row_id r = id')).
    destruct (decide (row_id r = id')); by rewrite IH.
  - apply dec_stable in Hr.
    rewrite (filter_cons_False (λ r : row B, row_id r = id')); [done|].
    congruence.
Qed.

Lemma NoDup_insert_or_replace id text b t :
  NoDup (row_id <$> t) → NoDup (row_id <$> insert_or_replace id text b t).
Proof.
  intros Hnd. unfold insert_or_replace. rewrite fmap_app. apply NoDup_app.
  split_and!.
  - induction t as [|r t IH]; [constructor|].
    rewrite fmap_cons in Hnd. apply NoDup_cons in Hnd as [Hr Hnd].
    rewrite (filter_cons (λ r : row B, row_id r ≠ id)).
    destruct (decide (row_id r ≠ id)); [|by apply IH].
    rewrite fmap_cons. apply NoDup_cons. split; [|by apply IH].
    intros (r' & Heq & Hin%list_elem_of_filter)%list_elem_of_fmap.
    apply Hr. apply list_elem_of_fmap. exists r'. by destruct Hin.
  - intros x (r & -> & Hin%list_elem_of_filter)%list_elem_of_fmap.
    rewrite list_fmap_singleton. intros Heq%list_elem_of_singleton.
    by destruct Hin.
  - apply NoDup_singleton.
Qed.

End TableFacts.

(** ** Running the store *)

Section StoreFacts.
Context {F B : Type} `{!Numpy F} `{!Pickle F B} `{!Embedder F}.
Implicit Types (s : SimpleVectorStore F B).

Lemma bind_Ok {A A'} (m : M F B A) (f : A → M F B A') s a s1 :
  m s = (Ok a, s1) → (m ≫= f) s = f a s1.
Proof. intros Hm. unfold mbind, M_bind. by rewrite Hm. Qed.

Lemma bind_Raise {A A'} (m : M F B A) (f : A → M F B A') s e s1 :
  m s = (Raise e, s1) → (m ≫= f) s = (Raise e, s1).
Proof. intros Hm. unfold mbind, M_bind. by rewrite Hm. Qed.

Lemma cursor_open s : conn s = ConnOpen → cursor s = (Ok tt, s).
Proof. intros Hc. unfold cursor. by rewrite Hc. Qed.

Lemma cursor_closed s :
  conn s = ConnClosed → cursor s = (Raise ProgrammingError, s).
Proof. intros Hc. unfold cursor. by rewrite Hc. Qed.

Lemma conn_foldl_upsert l s : conn (foldl upsert s l) = conn s.
Proof. revert s. induction l as [|r l IH]; intros s; [done|]. simpl. by rewrite IH. Qed.

(** [add_texts] on an open connection runs the loop to its end and returns
    the ids; on a closed one it raises before it writes anything. *)
Lemma add_texts_open txts ids s :
  conn s = ConnOpen →
  add_texts txts ids s =
    let ids' := match ids with
                | None => default_ids (length txts)
                | Some ids => ids
                end in
    (Ok ids', foldl upsert s (zip3 ids' txts (encode_batch txts))).
Proof.
  intros Hc. unfold add_texts. cbv zeta.
  generalize (zip3 match ids with
                   | Some ids0 => ids0
                   | None => default_ids (length txts)
                   end txts (encode_batch txts)).
  intros l. rewrite (bind_Ok _ _ s tt s) by by apply cursor_open.
  match goal with
  | |- context [for_each l ?body] =>
      assert (∀ l s, conn s = ConnOpen →
                for_each l body s = (Ok tt, foldl upsert s l)) as Hloop
  end.
  { clear. intros l. induction l as [|[[id t] e] l IH]; intros s Hc; [done|].
    cbn [for_each foldl].
    rewrite (bind_Ok _ _ s tt (upsert s (id, t, e))); [by apply IH|].
    unfold execute_insert_or_replace, mbind, M_bind, cursor, modify.
    by rewrite Hc. }
  rewrite (bind_Ok _ _ s tt _ (Hloop l s Hc)).
  rewrite (bind_Ok _ _ _ tt (foldl upsert s l)); [done|].
  apply cursor_open. by rewrite conn_foldl_upsert.
Qed.

Lemma add_texts_closed txts ids s :
  conn s = ConnClosed → add_texts txts ids s = (Raise ProgrammingError, s).
Proof.
  intros Hc. unfold add_texts. cbv zeta.
  by rewrite (bind_Raise _ _ s ProgrammingError s) by by apply cursor_closed.
Qed.

Lemma rows_foldl_cache_row l s : rows (foldl cache_row s l) = rows s.
Proof. revert s. induction l as [|r l IH]; intros s; [done|]. simpl. by rewrite IH. Qed.

Lemma unpickled_all (t : table B) :
  Forall (λ r, is_Some (loads r.2)) t ↔ length (unpickled t) = length t.
Proof.
  induction t as [|[[id text] b] t IH]; simpl; [by split; [|constructor]|].
  rewrite Forall_cons, IH. simpl. destruct (loads b) as [v|]; simpl.
  - split; [intros [_ ->]; done | intros [= ?]; eauto].
  - split; [intros [[? [=]] _] | intros [=]].
Qed.

Lemma unpickled_corrupt (good rest : table B) (bad : row B) :
  Forall (λ r, is_Some (loads r.2)) good → loads bad.2 = None →
  unpickled (good ++ bad :: rest) = unpickled good ∧
  length (unpickled good) = length good.
Proof.
  intros Hgood Hbad. split; [|by apply unpickled_all].
  induction Hgood as [|[[id text] b] good [v Hv] _ IH]; simpl.
  - destruct bad as [[id text] b]. simpl in Hbad. by rewrite Hbad.
  - simpl in Hv. by rewrite Hv, IH.
Qed.

(** [_load_all_vectors] caches the rows it can unpickle, in table order, and
    raises at the first blob it cannot. *)
Lemma load_all_open s :
  conn s = ConnOpen →
  _load_all_vectors s =
    (if decide (length (unpickled (rows s)) = length (rows s))
     then Ok tt else Raise UnpicklingError,
     foldl cache_row s (unpickled (rows s))).
Proof.
  intros Hc. unfold _load_all_vectors.
  rewrite (bind_Ok _ _ s tt s) by by apply cursor_open.
  rewrite (bind_Ok _ _ s (rows s) s)
    by (unfold execute_select_all, mbind, M_bind, cursor, gets; by rewrite Hc).
  generalize (rows s). intros t. clear Hc. revert s.
  induction t as [|[[id text] b] t IH]; intros s; [done|].
  cbn [for_each unpickled]. destruct (loads b) as [v|] eqn:Hb.
  - rewrite (bind_Ok _ _ s tt (cache_row s (id, text, v))) by done.
    rewrite IH. cbn [foldl length].
    destruct (decide (length (unpickled t) = length t)) as [->|Hne].
    + by rewrite decide_True.
    + rewrite decide_False; [done | congruence].
  - rewrite (bind_Raise _ _ s UnpicklingError s) by done.
    by rewrite decide_False.
Qed.

Lemma load_all_closed s :
  conn s = ConnClosed → _load_all_vectors s = (Raise ProgrammingError, s).
Proof.
  intros Hc. unfold _load_all_vectors.
  by rewrite (bind_Raise _ _ s ProgrammingError s) by by apply cursor_closed.
Qed.

Lemma vectors_foldl_upsert l s :
  vectors (foldl upsert s l) = foldl (λ d r, dict_set r.1.1 r.2 d) (vectors s) l.
Proof. revert s. induction l as [|r l IH]; intros s; [done|]. simpl. by rewrite IH. Qed.

Lemma texts_foldl_upsert l s :
  texts (foldl upsert s l) = foldl (λ d r, dict_set r.1.1 r.1.2 d) (texts s) l.
Proof. revert s. induction l as [|r l IH]; intros s; [done|]. simpl. by rewrite IH. Qed.

Lemma rows_foldl_upsert l s :
  rows (foldl upsert s l) =
    foldl (λ t r, insert_or_replace r.1.1 r.1.2 (dumps r.2) t) (rows s) l.
Proof. revert s. induction l as [|r l IH]; intros s; [done|]. simpl. by rewrite IH. Qed.

Lemma vectors_foldl_cache_row l s :
  vectors (foldl cache_row s l) =
    foldl (λ d r, dict_set r.1.1 r.2 d) (vectors s) l.
Proof. revert s. induction l as [|r l IH]; intros s; [done|]. simpl. by rewrite IH. Qed.

Lemma texts_foldl_cache_row l s :
  texts (foldl cache_row s l) =
    foldl (λ d r, dict_set r.1.1 r.1.2 d) (texts s) l.
Proof. revert s. induction l as [|r l IH]; intros s; [done|]. simpl. by rewrite IH. Qed.

Lemma elem_of_unpickled (t : table B) x :
  x ∈ unpickled t → ∃ b, (x.1, b) ∈ t ∧ loads b = Some x.2.
Proof.
  induction t as [|[[id text] b] t IH]; cbn [unpickled].
  - by intros ?%elem_of_nil.
  - destruct (loads b) as [v|] eqn:Hb; [|by intros ?%elem_of_nil].
    intros [->|Hin]%elem_of_cons.
    + exists b. split; [left | done].
    + destruct (IH Hin) as (b' & ? & ?). exists b'. split; [by right | done].
Qed.

(** The scoring loop reads the state and leaves it as it is: it appends one
    pair per cache entry, in the order of the cache. *)
Lemma rank_scorable q k s :
  Forall (scorable (length q) (texts s)) (vectors s) →
  ∃ sims, rank q k s = (Ok (slice_to k (sort_desc sims)), s) ∧
          Forall2 (scored q (texts s)) (vectors s) sims.
Proof.
  intros Hsc. unfold rank.
  rewrite (bind_Ok _ _ s (vectors s) s) by done.
  match goal with
  | |- context [for_append _ ?body] =>
      assert (∀ l, Forall (scorable (length q) (texts s)) l →
                ∃ sims, for_append l body s = (Ok sims, s) ∧
                        Forall2 (scored q (texts s)) l sims) as Hloop
  end.
  { clear. intros l Hl. induction Hl as [|[id v] l [Hlen [t Ht]] _ IH].
    - exists []. split; [done | constructor].
    - destruct IH as (sims & Hrun & Hsims). simpl in Hlen, Ht.
      set (sim := similarity q v).
      exists ((t, sim) :: sims). split; [|constructor; [by split | done]].
      cbn [for_append].
      rewrite (bind_Ok _ _ s (t, sim) s);
        [by rewrite (bind_Ok _ _ s sims s Hrun)|].
      unfold cosine, texts_getitem, mbind, M_bind.
      rewrite decide_True by done. unfold mret, M_ret. by rewrite Ht. }
  destruct (Hloop _ Hsc) as (sims & Hrun & Hsims). exists sims.
  split; [|done]. by rewrite (bind_Ok _ _ s sims s Hrun).
Qed.

Lemma similarity_search_cached query k s :
  vectors s ≠ [] → similarity_search query k s = rank (encode query) k s.
Proof.
  intros Hne. unfold similarity_search, rank. cbv zeta.
  rewrite (bind_Ok _ _ s (vectors s) s) by done.
  rewrite decide_False by done.
  by rewrite (bind_Ok _ _ s tt s) by done.
Qed.

Lemma similarity_search_empty query k s :
  vectors s = [] →
  similarity_search query k s =
    match _load_all_vectors s with
    | (Ok _, s1) => rank (encode query) k s1
    | (Raise e, s1) => (Raise e, s1)
    end.
Proof.
  intros He. unfold similarity_search, rank. cbv zeta.
  rewrite (bind_Ok _ _ s (vectors s) s) by done.
  rewrite decide_True by done.
  unfold mbind at 1, M_bind at 1.
  by destruct (_load_all_vectors s) as [[[]|e] s1].
Qed.

Lemma for_append_frame {X Y} (body : X → M F B Y) s1 s2 l :
  (∀ x, body x s1 = ((body x s2).1, s1) ∧ (body x s2).2 = s2) →
  for_append l body s1 = ((for_append l body s2).1, s1) ∧
  (for_append l body s2).2 = s2.
Proof.
  intros Hbody. induction l as [|x l [IH1 IH2]]; [done|].
  cbn [for_append]. unfold mbind, M_bind.
  destruct (Hbody x) as [Hx1 Hx2]. rewrite Hx1.
  destruct (body x s2) as [[y|e] s']; cbn [fst snd] in *; subst s'; [|done].
  rewrite IH1.
  by destruct (for_append l body s2) as [[ys|e] s']; cbn [fst snd] in *; subst s'.
Qed.

(** The scoring loop depends on the two dicts only, and hands the state
    back untouched. *)
Lemma rank_frame q k s1 s2 :
  vectors s1 = vectors s2 → texts s1 = texts s2 →
  rank q k s1 = ((rank q k s2).1, s1).
Proof.
  intros Hv Ht. unfold rank.
  rewrite (bind_Ok _ _ s1 (vectors s1) s1) by done.
  rewrite (bind_Ok _ _ s2 (vectors s2) s2) by done.
  rewrite <- Hv. generalize (vectors s1). intros l.
  match goal with
  | |- context [for_append _ ?body] =>
      set (b := body); destruct (for_append_frame b s1 s2 l) as [H1 H2]
  end.
  { intros [id v]. unfold b, cosine, texts_getitem, mbind, M_bind, raise.
    destruct (decide (length q = length v)); [|done].
    unfold mret, M_ret. rewrite Ht.
    by destruct (dict_get id (texts s2)). }
  unfold mbind, M_bind. rewrite H1.
  by destruct (for_append l _ s2) as [[sims|e] s']; cbn [fst snd] in *; subst s'.
Qed.

(** [similarity_search] on a searchable store returns the ranking of the
    hydrated cache. *)
Lemma similarity_search_returns query k s :
  searchable query s →
  ∃ sims,
    similarity_search query k s =
      (Ok (slice_to k (sort_desc sims)), hydrated s) ∧
    Forall2 (scored (encode query) (texts (hydrated s)))
      (vectors (hydrated s)) sims.
Proof.
  unfold searchable, hydrated. intros Hs.
  destruct (decide (vectors s = [])) as [He|Hne].
  - destruct Hs as [Hc Hrows].
    rewrite similarity_search_empty, load_all_open by done.
    assert (length (unpickled (rows s)) = length (rows s)) as Hall.
    { apply unpickled_all. eapply Forall_impl; [done|].
      intros r (v & Hv & _). by exists v. }
    rewrite decide_True by done. apply rank_scorable.
    apply Forall_forall. intros [id v] Hin.
    rewrite vectors_foldl_cache_row in Hin.
    apply elem_of_assignments in Hin as [Hin|(x & Hx & <- & <-)].
    { rewrite He in Hin. by apply elem_of_nil in Hin. }
    split; cbn [fst snd].
    + apply elem_of_unpickled in Hx as (b & Hb & Hload).
      rewrite Forall_forall in Hrows. destruct (Hrows _ Hb) as (v & Hv & Hlen).
      cbn [snd] in Hv. congruence.
    + apply dict_get_is_Some. rewrite texts_foldl_cache_row.
      apply elem_of_keys_assignments. right.
      apply list_elem_of_fmap. by exists x.
  - rewrite similarity_search_cached by done. by apply rank_scorable.
Qed.

End StoreFacts.

(** ** Sorting and slicing *)

Section RankFacts.
Context {F : Type} `{!Numpy F}.
Implicit Types (l : list (string * F)) (x : string * F).

Lemma insert_desc_perm x l : insert_desc x l ≡ₚ x :: l.
Proof.
  induction l as [|y l IH]; cbn [insert_desc]; [done|].
  destruct (f_ltb x.2 y.2); [|done]. rewrite IH. apply Permutation_swap.
Qed.

Lemma sort_desc_perm l : sort_desc l ≡ₚ l.
Proof.
  induction l as [|x l IH]; [done|]. unfold sort_desc. cbn [foldr].
  rewrite insert_desc_perm. by constructor.
Qed.

Lemma length_sort_desc l : length (sort_desc l) = length l.
Proof. by rewrite sort_desc_perm. Qed.

Lemma descending_cons x y l :
  f_leb y.2 x.2 = true → descending (y :: l) → descending (x :: y :: l).
Proof.
  intros Hxy Hl [|i] p p'; cbn.
  - by intros [= <-] [= <-].
  - apply Hl.
Qed.

Lemma descending_tail x l : descending (x :: l) → descending l.
Proof. intros Hl i p p' Hp Hp'. by apply (Hl (S i)). Qed.

Lemma insert_desc_descending x l :
  comparable (x.2 :: l.*2) → descending l → descending (insert_desc x l).
Proof.
  induction l as [|y l IH]; intros Hcmp Hl; cbn [insert_desc].
  - intros [|i] p p'; cbn; [by intros _ ?|by intros ?].
  - assert (x.2 ∈ x.2 :: (y :: l).*2) as Hx by left.
    assert (y.2 ∈ x.2 :: (y :: l).*2) as Hy by (right; left).
    destruct (Hcmp _ _ Hx Hy) as [Hlt Hge].
    destruct (f_ltb x.2 y.2) eqn:Hxy.
    + assert (descending (insert_desc x l)) as Hins.
      { apply IH; [|by eapply descending_tail].
        intros a b Ha Hb. apply Hcmp.
        - apply elem_of_cons in Ha as [->|Ha]; [left | right; by right].
        - apply elem_of_cons in Hb as [->|Hb]; [left | right; by right]. }
      destruct l as [|z l]; cbn [insert_desc] in *.
      * apply descending_cons; [by apply Hlt | done].
      * destruct (f_ltb x.2 z.2).
        -- apply descending_cons; [|done]. by apply (Hl 0 y z).
        -- apply descending_cons; [by apply Hlt | done].
    + apply descending_cons; [by apply Hge | done].
Qed.

Lemma sort_desc_descending l : comparable l.*2 → descending (sort_desc l).
Proof.
  induction l as [|x l IH]; intros Hcmp.
  - intros i p p' Hp. change (@nil (string * F) !! i = Some p) in Hp.
    by rewrite lookup_nil in Hp.
  - unfold sort_desc. cbn [foldr]. apply insert_desc_descending.
    + intros a b Ha Hb. apply Hcmp.
      * rewrite fmap_cons. apply elem_of_cons in Ha as [->|Ha]; [left|right].
        by rewrite <- (sort_desc_perm l).
      * rewrite fmap_cons. apply elem_of_cons in Hb as [->|Hb]; [left|right].
        by rewrite <- (sort_desc_perm l).
    + apply IH. intros a b Ha Hb. apply Hcmp; rewrite fmap_cons; by right.
Qed.

Lemma length_slice_to {A} (k : Z) (l : list A) :
  Z.of_nat (length (slice_to k l)) =
    if (0 <=? k)%Z then Z.min k (Z.of_nat (length l))
    else Z.max (Z.of_nat (length l) + k) 0.
Proof.
  unfold slice_to. destruct (Z.leb_spec 0 k); rewrite length_take; lia.
Qed.

Lemma slice_to_all {A} (k : Z) (l : list A) :
  (Z.of_nat (length l) ≤ k)%Z → slice_to k l = l.
Proof.
  intros Hk. unfold slice_to. destruct (Z.leb_spec 0 k); [|lia].
  apply take_ge. lia.
Qed.

Lemma elem_of_slice_to {A} (k : Z) (l : list A) (a : A) :
  a ∈ slice_to k l → a ∈ l.
Proof.
  unfold slice_to. destruct (0 <=? k)%Z; apply (subseteq_take _ l).
Qed.

Lemma slice_to_descending k l : descending l → descending (slice_to k l).
Proof.
  intros Hl i p p'. unfold slice_to.
  destruct (0 <=? k)%Z; intros [Hp _]%lookup_take_Some [Hp' _]%lookup_take_Some;
    by apply (Hl i).
Qed.

End RankFacts.

(** ** add_texts *)

Section ZipFacts.
Context {X Y Z : Type}.

Lemma zip3_ids (xs : list X) (ys : list Y) (zs : list Z) :
  (zip3 xs ys zs).*1.*1 = take (length ys `min` length zs) xs.
Proof.
  revert ys zs. induction xs as [|x xs IH]; intros [|y ys] [|z zs]; try done.
  cbn [zip3 length Nat.min take]. rewrite !fmap_cons. cbn [fst]. by rewrite IH.
Qed.

Lemma zip3_lookup (xs : list X) (ys : list Y) (zs : list Z) i x y z :
  xs !! i = Some x → ys !! i = Some y → zs !! i = Some z →
  zip3 xs ys zs !! i = Some (x, y, z).
Proof.
  revert ys zs i. induction xs as [|x' xs IH]; intros [|y' ys] [|z' zs] [|i];
    try done; cbn.
  - by intros [= ->] [= ->] [= ->].
  - apply IH.
Qed.

Lemma zip3_third (xs : list X) (ys : list Y) (zs : list Z) r :
  r ∈ zip3 xs ys zs → r.2 ∈ zs.
Proof.
  revert ys zs. induction xs as [|x xs IH]; intros [|y ys] [|z zs];
    try (by intros ?%elem_of_nil). cbn [zip3].
  intros [->|Hin]%elem_of_cons; [left | right; by eapply IH].
Qed.

End ZipFacts.

Section AddFacts.
Context {F B : Type} `{!Numpy F} `{!Pickle F B} `{!Embedder F}.
Implicit Types (s : SimpleVectorStore F B) (l : list (string * string * list F)).

Lemma filter_id_absent id l :
  id ∉ l.*1.*1 → filter (λ r, r.1.1 = id) l = [].
Proof.
  intros Hnin. induction l as [|r l IH]; [done|].
  rewrite !fmap_cons, not_elem_of_cons in Hnin. destruct Hnin as [Hne Hnin].
  rewrite filter_cons_False by done. by apply IH.
Qed.

Lemma last_write_None id l : last_write id l = None ↔ id ∉ l.*1.*1.
Proof.
  unfold last_write. rewrite fmap_None, last_None. split.
  - intros Hnil (r1 & -> & (r & -> & Hin)%list_elem_of_fmap)%list_elem_of_fmap.
    by apply (filter_nil_not_elem_of _ _ r Hnil).
  - apply filter_id_absent.
Qed.

Lemma last_write_NoDup id t e l i :
  NoDup l.*1.*1 → l !! i = Some (id, t, e) → last_write id l = Some (t, e).
Proof.
  unfold last_write. intros Hnd Hi.
  replace (filter _ l) with [(id, t, e)]; [done|].
  revert i Hnd Hi. induction l as [|r l IH]; intros i Hnd Hi; [done|].
  rewrite !fmap_cons in Hnd. apply NoDup_cons in Hnd as [Hr Hnd].
  destruct i as [|i]; cbn in Hi.
  - injection Hi as ->. rewrite filter_cons_True by done.
    by rewrite filter_id_absent.
  - rewrite filter_cons_False; [by apply (IH i)|].
    intros Heq. apply Hr. rewrite Heq.
    apply list_elem_of_fmap. exists (id, t). split; [done|].
    apply list_elem_of_fmap. exists (id, t, e). split; [done|].
    by apply list_elem_of_lookup_2 in Hi.
Qed.

Lemma rows_of_foldl_upsert id l s :
  rows_of id (rows (foldl upsert s l)) =
    match last_write id l with
    | Some (t, e) => [(id, t, dumps e)]
    | None => rows_of id (rows s)
    end.
Proof.
  unfold last_write. induction l as [|r l IH] using rev_ind; [done|].
  rewrite foldl_snoc, filter_app. cbn [upsert set_text set_rows set_vector rows].
  destruct (decide (r.1.1 = id)) as [<-|Hne].
  - rewrite (filter_singleton_True (λ r', r'.1.1 = r.1.1)) by done.
    rewrite last_snoc. cbn. apply rows_of_insert_eq.
  - rewrite (filter_singleton_False (λ r', r'.1.1 = id)) by done.
    rewrite app_nil_r, rows_of_insert_ne by done. apply IH.
Qed.

(** What a batch of upserts leaves under an id: the last pair written for
    it, in the two dicts and as its only row; what was there is kept for an
    id the batch does not mention. *)
Lemma foldl_upsert_at id l s :
  let s' := foldl upsert s l in
  match last_write id l with
  | Some (t, e) =>
      dict_get id (vectors s') = Some e ∧ dict_get id (texts s') = Some t ∧
      rows_of id (rows s') = [(id, t, dumps e)]
  | None =>
      dict_get id (vectors s') = dict_get id (vectors s) ∧
      dict_get id (texts s') = dict_get id (texts s) ∧
      rows_of id (rows s') = rows_of id (rows s)
  end.
Proof.
  cbv zeta. rewrite rows_of_foldl_upsert, vectors_foldl_upsert, texts_foldl_upsert.
  rewrite (dict_get_assignments (λ r, r.1.1) (λ r, r.2)).
  rewrite (dict_get_assignments (λ r, r.1.1) (λ r, r.1.2)).
  unfold last_write.
  by destruct (last (filter (λ r, r.1.1 = id) l)) as [[[id' t] e]|].
Qed.

Lemma well_formed_foldl_upsert l s :
  well_formed s → well_formed (foldl upsert s l).
Proof.
  intros (Hk & Hnd & Hrows). unfold well_formed.
  rewrite vectors_foldl_upsert, texts_foldl_upsert, rows_foldl_upsert.
  split_and!.
  - rewrite (keys_assignments (λ r, r.1.1) (λ r, r.2)).
    rewrite (keys_assignments (λ r, r.1.1) (λ r, r.1.2)). by rewrite Hk.
  - by apply (NoDup_keys_assignments (λ r, r.1.1) (λ r, r.2)).
  - clear -Hrows. revert Hrows. generalize (rows s). intros t.
    revert t. induction l as [|r l IH]; intros t Ht; [done|].
    cbn [foldl]. by apply IH, NoDup_insert_or_replace.
Qed.

Lemma well_formed_init (disk : table B) :
  NoDup (row_id <$> disk) → well_formed (init (F:=F) disk).
Proof. intros Hnd. split_and!; [done | apply NoDup_nil_2 | done]. Qed.

End AddFacts.

Section AddTexts.
Context {F B : Type} `{!Numpy F} `{!Pickle F B} `{!Embedder F}.
Implicit Types (s : SimpleVectorStore F B).

(** C1 (amended): with ids given and len(ids) different from len(texts),
    [add_texts] on an open store does not fail: it returns ids as given,
    after storing a record under each of the first min(len(ids), len(texts))
    ids (zip pairs ids, texts and embeddings by position and stops at the
    shortest) and leaving every other id as it was. *)
Theorem add_texts_length_mismatch txts ids s :
  conn s = ConnOpen →
  length (encode_batch txts) = length txts →
  length ids ≠ length txts →
  ∃ s', add_texts txts (Some ids) s = (Ok ids, s') ∧
    let stored := take (length ids `min` length txts) ids in
    (∀ id, id ∈ stored →
       is_Some (dict_get id (vectors s')) ∧ is_Some (dict_get id (texts s')) ∧
       length (rows_of id (rows s')) = 1) ∧
    (∀ id, id ∉ stored →
       dict_get id (vectors s') = dict_get id (vectors s) ∧
       dict_get id (texts s') = dict_get id (texts s) ∧
       rows_of id (rows s') = rows_of id (rows s)).
Proof.
  intros Hc Henc _. rewrite add_texts_open by done. cbv zeta.
  eexists. split; [reflexivity|].
  set (l := zip3 ids txts (encode_batch txts)).
  assert (l.*1.*1 = take (length ids `min` length txts) ids) as Hids.
  { unfold l. rewrite zip3_ids, Henc, Nat.min_id.
    destruct (decide (length ids ≤ length txts)).
    - rewrite Nat.min_l by done. by rewrite !take_ge.
    - rewrite Nat.min_r by lia. done. }
  rewrite <- Hids. split; intros id Hid.
  - pose proof (foldl_upsert_at id l s) as Hat. cbv zeta in Hat.
    destruct (last_write id l) as [[t e]|] eqn:Hlast.
    + destruct Hat as (-> & -> & ->). by split_and!.
    + by apply last_write_None in Hlast.
  - pose proof (foldl_upsert_at id l s) as Hat. cbv zeta in Hat.
    apply last_write_None in Hid. by rewrite Hid in Hat.
Qed.

(** C8: without ids, [add_texts] on an open store returns the ids
    doc_0, ..., doc_{n-1} for its n texts, numbered by position in the
    batch whatever the store already holds, in the order of the texts: the
    text at position i is stored under doc_i. *)
Theorem add_texts_default_ids txts s :
  conn s = ConnOpen →
  ∃ s', add_texts txts None s = (Ok (default_ids (length txts)), s') ∧
    length (default_ids (length txts)) = length txts ∧
    (∀ i, i < length txts →
       default_ids (length txts) !! i = Some ("doc_" +:+ pretty i)) ∧
    (length (encode_batch txts) = length txts →
     ∀ i t, txts !! i = Some t →
       dict_get ("doc_" +:+ pretty i) (texts s') = Some t).
Proof.
  intros Hc. rewrite add_texts_open by done. cbv zeta.
  eexists. split; [reflexivity|]. unfold default_ids. split_and!.
  - by rewrite length_fmap, length_seq.
  - intros i Hi. by rewrite list_lookup_fmap, lookup_seq_lt.
  - intros Henc i t Hi.
    set (ids := (λ i : nat, "doc_" +:+ pretty i) <$> seq 0 (length txts)).
    set (l := zip3 ids txts (encode_batch txts)).
    assert (i < length txts) as Hlt by by eapply lookup_lt_Some.
    destruct (lookup_lt_is_Some_2 (encode_batch txts) i) as [e He]; [lia|].
    assert (l !! i = Some ("doc_" +:+ pretty i, t, e)) as Hl.
    { apply zip3_lookup; [|done..]. unfold ids.
      by rewrite list_lookup_fmap, lookup_seq_lt. }
    assert (NoDup l.*1.*1) as Hnd.
    { unfold l. rewrite zip3_ids, Henc, Nat.min_id.
      rewrite take_ge by (unfold ids; by rewrite length_fmap, length_seq).
      apply NoDup_fmap_2; [|apply NoDup_seq].
      intros a b Hab. by apply String.app_inj, pretty_nat_inj in Hab. }
    pose proof (foldl_upsert_at ("doc_" +:+ pretty i) l s) as Hat.
    cbv zeta in Hat. rewrite (last_write_NoDup _ t e l i Hnd Hl) in Hat.
    by destruct Hat as (_ & -> & _).
Qed.

(** C6: two calls of [add_texts] with the same explicit id leave one record
    for that id, with the text and the vector of the second call, in the
    two dicts and in the table. *)
Theorem add_texts_last_write_wins id t1 t2 e2 s :
  conn s = ConnOpen → well_formed s → encode_batch [t2] = [e2] →
  ∃ s1 s2,
    add_texts [t1] (Some [id]) s = (Ok [id], s1) ∧
    add_texts [t2] (Some [id]) s1 = (Ok [id], s2) ∧
    dict_get id (vectors s2) = Some e2 ∧ dict_get id (texts s2) = Some t2 ∧
    entries id (vectors s2) = 1 ∧ entries id (texts s2) = 1 ∧
    rows_of id (rows s2) = [(id, t2, dumps e2)].
Proof.
  intros Hc Hwf He2. rewrite add_texts_open by done. cbv zeta.
  set (s1 := foldl upsert s _). exists s1.
  assert (conn s1 = ConnOpen) as Hc1 by (unfold s1; by rewrite conn_foldl_upsert).
  assert (well_formed s1) as (Hk & Hnd & _) by by apply well_formed_foldl_upsert.
  rewrite add_texts_open by done. cbv zeta. rewrite He2.
  clearbody s1. eexists. split_and!; try reflexivity;
    cbn [zip3 foldl upsert set_text set_vector set_rows vectors texts rows fst snd].
  - apply dict_get_set_eq.
  - apply dict_get_set_eq.
  - by apply entries_dict_set.
  - apply entries_dict_set. by rewrite <- Hk.
  - apply rows_of_insert_eq.
Qed.

Lemma unpickled_rows_of id (t : table B) :
  Forall (λ r, is_Some (loads r.2)) t →
  filter (λ x, x.1.1 = id) (unpickled t) = unpickled (rows_of id t).
Proof.
  unfold rows_of. induction 1 as [|[[id' text] b] t [v Hv] _ IH]; [done|].
  cbn [snd] in Hv. cbn [unpickled]. rewrite Hv.
  destruct (decide (id' = id)) as [->|Hne].
  - rewrite filter_cons_True by done.
    rewrite (filter_cons_True (λ r : row B, row_id r = id)) by done.
    cbn [unpickled]. by rewrite Hv, IH.
  - rewrite filter_cons_False by done.
    by rewrite (filter_cons_False (λ r : row B, row_id r = id)).
Qed.

Lemma Forall_rows_foldl_upsert (P : row B → Prop) l s :
  Forall P (rows s) → Forall (λ r, P (r.1.1, r.1.2, dumps r.2)) l →
  Forall P (rows (foldl upsert s l)).
Proof.
  intros Hs Hnew. rewrite rows_foldl_upsert. revert Hs. generalize (rows s).
  induction Hnew as [|r l Hr _ IH]; intros t Ht; [done|].
  cbn [foldl]. apply IH. unfold insert_or_replace.
  apply Forall_app. split; [|by apply Forall_singleton].
  rewrite Forall_forall in Ht. apply Forall_forall.
  intros r' [_ Hin]%list_elem_of_filter. by apply Ht.
Qed.

(** C7: when pickle.loads inverts pickle.dumps, every vector [add_texts]
    leaves in the table is read back as it was: a fresh store on the same
    table loads, for each id of the batch, the very vector (and text) last
    written for it. *)
Theorem pickle_round_trip txts ids s :
  (∀ v, loads (dumps v) = Some v) →
  conn s = ConnOpen →
  Forall (λ r, is_Some (loads r.2)) (rows s) →
  ∃ ids' s1 s2,
    add_texts txts ids s = (Ok ids', s1) ∧
    _load_all_vectors (init (rows s1)) = (Ok tt, s2) ∧
    ∀ id t e, last_write id (zip3 ids' txts (encode_batch txts)) = Some (t, e) →
      rows_of id (rows s1) = [(id, t, dumps e)] ∧
      dict_get id (vectors s2) = Some e ∧ dict_get id (texts s2) = Some t.
Proof.
  intros Hpickle Hc Hrows. rewrite add_texts_open by done. cbv zeta.
  set (ids' := match ids with Some i => i | None => _ end).
  set (l := zip3 ids' txts (encode_batch txts)).
  set (s1 := foldl upsert s l).
  assert (Forall (λ r, is_Some (loads r.2)) (rows s1)) as Hrows1.
  { apply Forall_rows_foldl_upsert; [done|]. apply Forall_forall.
    intros r _. cbn. by rewrite Hpickle. }
  exists ids', s1. eexists. split; [done|].
  rewrite load_all_open by done. cbn [init rows].
  rewrite decide_True by by apply unpickled_all.
  split; [reflexivity|]. intros id t e Hlast.
  pose proof (foldl_upsert_at id l s) as Hat. cbv zeta in Hat.
  fold l in Hlast. rewrite Hlast in Hat. destruct Hat as (_ & _ & Hrow).
  fold s1 in Hrow. split; [done|].
  rewrite vectors_foldl_cache_row, texts_foldl_cache_row.
  rewrite (dict_get_assignments (λ r, r.1.1) (λ r, r.2)).
  rewrite (dict_get_assignments (λ r, r.1.1) (λ r, r.1.2)).
  rewrite unpickled_rows_of, Hrow by done.
  cbn [unpickled]. by rewrite Hpickle.
Qed.

End AddTexts.

(** ** similarity_search *)

Section Search.
Context {F B : Type} `{!Numpy F} `{!Pickle F B} `{!Embedder F}.
Implicit Types (s : SimpleVectorStore F B).

(** C2 (amended): on a store that [similarity_search] can search, whose
    cache holds n records after hydration, the call returns min(k, n)
    pairs when k >= 0 and max(n + k, 0) pairs when k < 0: the slice [:k]
    with a negative k drops the last |k| ranked pairs, it does not empty
    the result. *)
Theorem similarity_search_length query k s :
  searchable query s →
  ∃ res s', similarity_search query k s = (Ok res, s') ∧
    Z.of_nat (length res) =
      if (0 <=? k)%Z then Z.min k (Z.of_nat (length (vectors s')))
      else Z.max (Z.of_nat (length (vectors s')) + k) 0.
Proof.
  intros Hs. destruct (similarity_search_returns query k s Hs) as (sims & Hrun & Hsims).
  eexists _, _. split; [exact Hrun|].
  rewrite length_slice_to, length_sort_desc.
  by rewrite (Forall2_length _ _ _ Hsims).
Qed.

(** A store that was never populated answers every query, whatever k, with
    the empty list. *)
Lemma similarity_search_never_populated query k :
  similarity_search query k (init (B:=B) []) = (Ok [], init []).
Proof.
  rewrite similarity_search_empty, load_all_open by done.
  unfold rank, mbind, M_bind, gets, mret, M_ret, slice_to. cbn.
  destruct (0 <=? k)%Z; by rewrite take_nil.
Qed.

(** C4: every pair of the result is the text of a cached record with the
    value dot(q, v) / (norm(q) * norm(v) + 1e-8) of its vector v, whatever
    the entries of q and v (all zeros included), and a k that covers the
    cache returns such a pair for every cached record. *)
Theorem similarity_search_cosine query k s :
  searchable query s →
  ∃ res s', similarity_search query k s = (Ok res, s') ∧
    (∀ text sim, (text, sim) ∈ res →
       ∃ id vector, (id, vector) ∈ vectors s' ∧
         dict_get id (texts s') = Some text ∧
         sim = f_div (np_dot (encode query) vector)
                     (f_add (f_mul (np_norm (encode query)) (np_norm vector))
                            f_eps)) ∧
    ((Z.of_nat (length (vectors s')) ≤ k)%Z →
     ∀ id vector, (id, vector) ∈ vectors s' →
       ∃ text, dict_get id (texts s') = Some text ∧
         (text, f_div (np_dot (encode query) vector)
                      (f_add (f_mul (np_norm (encode query)) (np_norm vector))
                             f_eps)) ∈ res).
Proof.
  intros Hs. destruct (similarity_search_returns query k s Hs) as (sims & Hrun & Hsims).
  eexists _, _. split; [exact Hrun|]. split.
  - intros text sim Hin%elem_of_slice_to. rewrite sort_desc_perm in Hin.
    apply list_elem_of_lookup in Hin as [i Hi].
    destruct (Forall2_lookup_r _ _ _ _ _ Hsims Hi) as ([id v] & Hkv & Ht & Hsim).
    exists id, v. split_and!; [|done..].
    apply list_elem_of_lookup. by exists i.
  - intros Hk id v [i Hi]%list_elem_of_lookup.
    destruct (Forall2_lookup_l _ _ _ _ _ Hsims Hi) as ([t sim] & Hp & Ht & Hsim).
    cbn [fst snd] in Ht, Hsim. exists t. split; [done|].
    rewrite slice_to_all, sort_desc_perm.
    + apply list_elem_of_lookup. exists i. by rewrite Hp, Hsim.
    + by rewrite length_sort_desc, <- (Forall2_length _ _ _ Hsims).
Qed.

(** C5: when the similarity values of the candidates are comparable (none
    is a NaN), each returned pair is followed by one whose similarity is
    less than or equal to its own. *)
Theorem similarity_search_descending query k s :
  searchable query s →
  comparable (similarity (encode query) <$> (vectors (hydrated s)).*2) →
  ∃ res s', similarity_search query k s = (Ok res, s') ∧ descending res.
Proof.
  intros Hs Hcmp.
  destruct (similarity_search_returns query k s Hs) as (sims & Hrun & Hsims).
  eexists _, _. split; [exact Hrun|].
  apply slice_to_descending, sort_desc_descending.
  replace (sims.*2) with (similarity (encode query) <$> (vectors (hydrated s)).*2);
    [done|].
  clear -Hsims. induction Hsims as [|[id v] [t sim] l sims [_ Hsim] _ IH]; [done|].
  rewrite !fmap_cons, IH. cbn [snd] in *. by rewrite Hsim.
Qed.

(** C9: [close()] changes the connection only; on a store whose cache is
    not empty a later [similarity_search] returns what it would have
    returned before the close, from the same two dicts, and leaves the
    closed store as it is (the rows are not read, no error of the closed
    connection appears). *)
Theorem close_keeps_cache query k s :
  vectors s ≠ [] →
  ∃ closed, close s = (Ok tt, closed) ∧
    vectors closed = vectors s ∧ texts closed = texts s ∧
    rows closed = rows s ∧ conn closed = ConnClosed ∧
    similarity_search query k closed =
      ((similarity_search query k s).1, closed) ∧
    (similarity_search query k s).2 = s.
Proof.
  intros Hne. eexists. split; [reflexivity|]. cbn [vectors texts rows conn].
  split_and!; try done.
  - rewrite !similarity_search_cached by done. by apply rank_frame.
  - rewrite similarity_search_cached by done.
    by rewrite (rank_frame _ _ s s).
Qed.

End Search.

(** ** Hydration from a table with a corrupt row *)

Section Hydration.
Context {F B : Type} `{!Numpy F} `{!Pickle F B} `{!Embedder F}.
Implicit Types (s : SimpleVectorStore F B).

Lemma unpickled_ids (t : table B) :
  Forall (λ r, is_Some (loads r.2)) t →
  (λ x, x.1.1) <$> unpickled t = row_id <$> t.
Proof.
  induction 1 as [|[[id text] b] t [v Hv] _ IH]; [done|].
  cbn [snd] in Hv. cbn [unpickled]. rewrite Hv, !fmap_cons. by rewrite IH.
Qed.

(** C3 (amended): when the cache is empty and a row of the table holds a
    blob that does not unpickle, the hydration step of [similarity_search]
    stops there: the unpickling error is raised to the caller, the rows
    before the first corrupt one are left in the cache, the rows after it
    are not loaded, and the table is as it was. *)
Theorem load_stops_at_corrupt_row query k s good bad rest :
  vectors s = [] → conn s = ConnOpen →
  rows s = good ++ bad :: rest →
  Forall (λ r, is_Some (loads r.2)) good → loads bad.2 = None →
  ∃ s', similarity_search query k s = (Raise UnpicklingError, s') ∧
    (∀ id, id ∈ keys (vectors s') ↔ id ∈ row_id <$> good) ∧
    rows s' = rows s.
Proof.
  intros He Hc Hrows Hgood Hbad.
  rewrite similarity_search_empty, load_all_open by done.
  destruct (unpickled_corrupt good rest bad Hgood Hbad) as [Hun Hlen].
  rewrite Hrows, Hun, decide_False by (rewrite length_app; cbn; lia).
  eexists. split; [reflexivity|]. split.
  - intros id. rewrite vectors_foldl_cache_row.
    rewrite (elem_of_keys_assignments (λ r, r.1.1) (λ r, r.2)).
    rewrite He, unpickled_ids by done. unfold keys.
    rewrite fmap_nil, elem_of_nil. tauto.
  - by rewrite rows_foldl_cache_row.
Qed.

End Hydration.

(** ** What the operations maintain *)

Section Invariants.
Context {F B : Type} `{!Numpy F} `{!Pickle F B} `{!Embedder F}.
Implicit Types (s : SimpleVectorStore F B).

Lemma well_formed_foldl_cache_row l s :
  well_formed s → well_formed (foldl cache_row s l).
Proof.
  intros (Hk & Hnd & Hrows). unfold well_formed.
  rewrite vectors_foldl_cache_row, texts_foldl_cache_row, rows_foldl_cache_row.
  split_and!; [|by apply (NoDup_keys_assignments (λ r, r.1.1) (λ r, r.2))|done].
  rewrite (keys_assignments (λ r, r.1.1) (λ r, r.2)).
  rewrite (keys_assignments (λ r, r.1.1) (λ r, r.1.2)). by rewrite Hk.
Qed.

Lemma rank_state q k s : (rank q k s).2 = s.
Proof. by rewrite (rank_frame q k s s). Qed.

(** The state [similarity_search] leaves: the cache as it was, or filled
    from the rows that unpickle; nothing else changes. *)
Lemma similarity_search_state query k s :
  (similarity_search query k s).2 = s ∨
  (similarity_search query k s).2 = foldl cache_row s (unpickled (rows s)).
Proof.
  destruct (decide (vectors s = [])) as [He|Hne].
  - rewrite similarity_search_empty by done.
    destruct (conn s) eqn:Hc.
    + right. rewrite load_all_open by done.
      destruct (decide _); [apply rank_state | done].
    + left. by rewrite load_all_closed.
  - left. rewrite similarity_search_cached by done. apply rank_state.
Qed.

(** The ids stay unique, in the same order in the two dicts, and the table
    keeps its primary key, through every operation of the store. *)
Lemma well_formed_preserved txts ids query k s :
  well_formed s →
  well_formed (add_texts txts ids s).2 ∧
  well_formed (similarity_search query k s).2 ∧
  well_formed (close s).2.
Proof.
  intros Hwf. split_and!; [| |done].
  - destruct (conn s) eqn:Hc.
    + rewrite add_texts_open by done. by apply well_formed_foldl_upsert.
    + by rewrite add_texts_closed.
  - destruct (similarity_search_state query k s) as [->| ->]; [done|].
    by apply well_formed_foldl_cache_row.
Qed.

Lemma dimension_add_texts d txts ids s :
  (∀ v, loads (dumps v) = Some v) →
  Forall (λ v, length v = d) (encode_batch txts) →
  dimension d s → dimension d (add_texts txts ids s).2.
Proof.
  intros Hpickle Henc [Hv Hr]. destruct (conn s) eqn:Hc;
    [|by rewrite add_texts_closed].
  rewrite add_texts_open by done. cbv zeta. cbn [snd].
  set (l := zip3 _ txts (encode_batch txts)).
  assert (Forall (λ r, length r.2 = d) l) as Hl.
  { apply Forall_forall. intros r Hin%zip3_third.
    rewrite Forall_forall in Henc. by apply Henc. }
  split.
  - apply Forall_forall. intros [id v]. rewrite vectors_foldl_upsert.
    intros [Hin|(r & Hin & _ & <-)]%elem_of_assignments.
    + rewrite Forall_forall in Hv. by apply (Hv (id, v)).
    + rewrite Forall_forall in Hl. by apply Hl.
  - apply Forall_rows_foldl_upsert; [done|].
    eapply Forall_impl; [exact Hl|]. intros r Hlen. exists r.2.
    cbn [snd]. by rewrite Hpickle.
Qed.

Lemma dimension_similarity_search d query k s :
  dimension d s → dimension d (similarity_search query k s).2.
Proof.
  intros [Hv Hr].
  destruct (similarity_search_state query k s) as [->| ->]; [done|].
  split; [|by rewrite rows_foldl_cache_row].
  apply Forall_forall. intros [id v]. rewrite vectors_foldl_cache_row.
  intros [Hin|(r & Hin & _ & <-)]%elem_of_assignments.
  - rewrite Forall_forall in Hv. by apply (Hv (id, v)).
  - apply elem_of_unpickled in Hin as (b & Hb & Hload).
    rewrite Forall_forall in Hr. destruct (Hr _ Hb) as (v & Hv' & Hlen).
    cbn [snd] in *. congruence.
Qed.

(** A well-formed store of the query's dimension is searchable, as long as
    its connection is open when its cache is empty. *)
Lemma searchable_of_invariant query s :
  well_formed s → dimension (length (encode query)) s →
  (vectors s = [] → conn s = ConnOpen) →
  searchable query s.
Proof.
  intros (Hk & _ & _) [Hv Hr] Hc. unfold searchable.
  destruct (decide (vectors s = [])) as [He|Hne]; [by split; [apply Hc|]|].
  apply Forall_forall. intros [id v] Hin. split.
  - rewrite Forall_forall in Hv. by apply (Hv (id, v)).
  - apply dict_get_is_Some. rewrite <- Hk. unfold keys.
    apply list_elem_of_fmap. by exists (id, v).
Qed.

(** So a store filled by [add_texts] on a fresh table can be searched. *)
Lemma searchable_after_add_texts txts ids query :
  (∀ v, loads (dumps v) = Some v) →
  Forall (λ v, length v = length (encode query)) (encode_batch txts) →
  searchable query (add_texts txts ids (init [])).2.
Proof.
  intros Hpickle Henc. apply searchable_of_invariant.
  - refine (proj1 (well_formed_preserved txts ids query 0%Z _ _)).
    apply well_formed_init, NoDup_nil_2.
  - apply dimension_add_texts; [done..|]. by split.
  - intros _. rewrite add_texts_open by done. apply conn_foldl_upsert.
Qed.

End Invariants.

(** ** db.py *)

Section Tokens.
Import Db.
Implicit Types (db : users).

Lemma tokens_of_lookup user_id db :
  tokens_of user_id db =
    match db !! user_id with Some u => tokens_remaining u | None => 0%Z end.
Proof. unfold tokens_of, get_or_create_user. by destruct (db !! user_id). Qed.

(** C10: [decrement_token] returns True and takes exactly one token when
    the user has some; it returns False and leaves the count as it is when
    the user has none (or is new, or is in debt); so a count that is not
    negative stays so. No other user is touched. *)
Theorem decrement_token_spec user_id db :
  (0 < tokens_of user_id db →
     (decrement_token user_id db).1 = true ∧
     tokens_of user_id (decrement_token user_id db).2 =
       tokens_of user_id db - 1)%Z ∧
  (tokens_of user_id db ≤ 0 →
     (decrement_token user_id db).1 = false ∧
     tokens_of user_id (decrement_token user_id db).2 =
       tokens_of user_id db)%Z ∧
  (0 ≤ tokens_of user_id db →
     0 ≤ tokens_of user_id (decrement_token user_id db).2)%Z ∧
  (∀ other, other ≠ user_id →
     tokens_of other (decrement_token user_id db).2 = tokens_of other db).
Proof.
  rewrite !tokens_of_lookup. setoid_rewrite tokens_of_lookup.
  unfold decrement_token, get_or_create_user, update_tokens.
  destruct (db !! user_id) as [u|] eqn:Hu.
  - destruct (Z.ltb_spec 0 (tokens_remaining u)); cbn [fst snd];
      rewrite ?lookup_alter_eq, ?Hu; cbn;
      split_and!; intros; rewrite ?lookup_alter_ne by done;
      try split; try done; lia.
  - cbn [fst snd new_user tokens_remaining Z.ltb Z.compare].
    rewrite lookup_insert_eq. cbn.
    split_and!; intros; rewrite ?lookup_insert_ne by done;
      try split; try done; lia.
Qed.

End Tokens.

(** ** The store on the binary64 instance *)

Import Fixture.

Lemma length_embed t : length (embed t) = 2.
Proof. unfold embed. by repeat case_decide. Qed.

Lemma searchable_abc64 query : searchable query abc64.
Proof.
  unfold searchable.
  destruct (decide (vectors abc64 = [])) as [Hv|_]; [by vm_compute in Hv|].
  change (encode query) with (embed query). rewrite length_embed.
  repeat apply Forall_cons_2; try apply Forall_nil_2; by split; [|eexists].
Qed.

Lemma comparable_abc64 :
  comparable (similarity (encode "a") <$> (vectors (hydrated abc64)).*2).
Proof.
  intros a b Ha Hb. vm_compute in Ha, Hb.
  elem_of_cases Ha; elem_of_cases Hb; by vm_compute.
Qed.

(** C2, on the store of three records with k = 2 *)
Lemma similarity_search_length_witness :
  searchable "a" abc64 ∧
  ∃ res s', similarity_search "a" 2 abc64 = (Ok res, s') ∧
    Z.of_nat (length res) = Z.min 2 (Z.of_nat (length (vectors s'))).
Proof.
  split; [apply searchable_abc64|].
  apply (similarity_search_length "a" 2 abc64), searchable_abc64.
Defined.

(** C2 as stated fails for a negative k: [similarity_search("a", k=-1)] on
    the store of three records returns the two best, not the empty list. *)
Lemma negative_k_keeps_results :
  ∃ res s', similarity_search "a" (-1) abc64 = (Ok res, s') ∧
    length (vectors s') = 3 ∧ res.*1 = ["a"; "c"] ∧ res ≠ [].
Proof. eexists _, _. by vm_compute. Qed.

(** C4, with the query embedding [0, 0] *)
Lemma similarity_search_cosine_witness :
  searchable "zeros" abc64 ∧
  ∃ res s', similarity_search "zeros" 3 abc64 = (Ok res, s') ∧
    (∀ text sim, (text, sim) ∈ res →
       ∃ id vector, (id, vector) ∈ vectors s' ∧
         dict_get id (texts s') = Some text ∧
         sim = f_div (np_dot (encode "zeros") vector)
                     (f_add (f_mul (np_norm (encode "zeros")) (np_norm vector))
                            f_eps)) ∧
    ((Z.of_nat (length (vectors s')) ≤ 3)%Z →
     ∀ id vector, (id, vector) ∈ vectors s' →
       ∃ text, dict_get id (texts s') = Some text ∧
         (text, f_div (np_dot (encode "zeros") vector)
                      (f_add (f_mul (np_norm (encode "zeros")) (np_norm vector))
                             f_eps)) ∈ res).
Proof.
  split; [apply searchable_abc64|].
  apply (similarity_search_cosine "zeros" 3 abc64), searchable_abc64.
Defined.

(** a query of zeros scores 0 against every record, and the ties keep the
    order of the cache *)
Example similarity_search_zeros :
  (similarity_search "zeros" 3 abc64).1 =
    Ok [("a", 0%float); ("b", 0%float); ("c", 0%float)].
Proof. by vm_compute. Qed.

(** C5, on the ranking example: a = [1, 0], b = [0, 1], c = [0.9, 0.1] and
    the query [1, 0] *)
Lemma similarity_search_descending_witness :
  searchable "a" abc64 ∧
  comparable (similarity (encode "a") <$> (vectors (hydrated abc64)).*2) ∧
  ∃ res s', similarity_search "a" 3 abc64 = (Ok res, s') ∧ descending res.
Proof.
  split; [apply searchable_abc64|]. split; [apply comparable_abc64|].
  apply (similarity_search_descending "a" 3 abc64);
    [apply searchable_abc64 | apply comparable_abc64].
Defined.

Example similarity_search_ranks_a_c_b :
  ∃ res s', similarity_search "a" 3 abc64 = (Ok res, s') ∧
    res.*1 = ["a"; "c"; "b"].
Proof. eexists _, _. by vm_compute. Qed.

(** C9, on the store of three records *)
Lemma close_keeps_cache_witness :
  vectors abc64 ≠ [] ∧
  ∃ closed, close abc64 = (Ok tt, closed) ∧
    vectors closed = vectors abc64 ∧ texts closed = texts abc64 ∧
    rows closed = rows abc64 ∧ conn closed = ConnClosed ∧
    similarity_search "a" 3 closed =
      ((similarity_search "a" 3 abc64).1, closed) ∧
    (similarity_search "a" 3 abc64).2 = abc64.
Proof.
  split; [by vm_compute|].
  apply (close_keeps_cache "a" 3 abc64). by vm_compute.
Defined.

(** C1 as stated fails: three texts with two ids are stored as two records
    and the two ids are returned; nothing is raised. *)
Lemma add_texts_truncates_silently :
  ∃ s', add_texts ["a"; "b"; "c"] (Some ["x"; "y"]) empty64 = (Ok ["x"; "y"], s') ∧
    texts s' = [("x", "a"); ("y", "b")] ∧ length (rows s') = 2.
Proof. eexists. by vm_compute. Qed.

(** C1 (amended), on three texts with two ids *)
Lemma add_texts_length_mismatch_witness :
  conn empty64 = ConnOpen ∧
  length (encode_batch ["a"; "b"; "c"]) = length ["a"; "b"; "c"] ∧
  length ["x"; "y"] ≠ length ["a"; "b"; "c"] ∧
  ∃ s', add_texts ["a"; "b"; "c"] (Some ["x"; "y"]) empty64 = (Ok ["x"; "y"], s') ∧
    (∀ id, id ∈ ["x"; "y"] →
       is_Some (dict_get id (vectors s')) ∧ is_Some (dict_get id (texts s')) ∧
       length (rows_of id (rows s')) = 1) ∧
    (∀ id, id ∉ ["x"; "y"] →
       dict_get id (vectors s') = dict_get id (vectors empty64) ∧
       dict_get id (texts s') = dict_get id (texts empty64) ∧
       rows_of id (rows s') = rows_of id (rows empty64)).
Proof.
  split_and!; [reflexivity | reflexivity | by vm_compute |].
  apply (add_texts_length_mismatch ["a"; "b"; "c"] ["x"; "y"] empty64);
    [reflexivity | reflexivity | by vm_compute].
Defined.

(** C3 as stated fails: one corrupt blob among three rows makes the search
    raise, with the row before it cached and the row after it not loaded. *)
Lemma corrupt_row_aborts_search :
  ∃ s', similarity_search "a" 3 corrupt64 = (Raise UnpicklingError, s') ∧
    texts s' = [("x", "a")].
Proof. eexists. by vm_compute. Qed.

(** C3 (amended), on the table whose second row is corrupt *)
Lemma load_stops_at_corrupt_row_witness :
  vectors corrupt64 = [] ∧ conn corrupt64 = ConnOpen ∧
  rows corrupt64 =
    [("x", "a", Pickled [1; 0]%float)] ++ ("y", "b", Garbage) ::
    [("z", "c", Pickled [0.9; 0.1]%float)] ∧
  Forall (λ r, is_Some (loads r.2)) [("x", "a", Pickled [1; 0]%float)] ∧
  loads ("y", "b", Garbage).2 = None ∧
  ∃ s', similarity_search "a" 3 corrupt64 = (Raise UnpicklingError, s') ∧
    (∀ id, id ∈ keys (vectors s') ↔
           id ∈ row_id <$> [("x", "a", Pickled [1; 0]%float)]) ∧
    rows s' = rows corrupt64.
Proof.
  split_and!; [reflexivity | reflexivity | reflexivity
              | by apply Forall_singleton; eexists | reflexivity |].
  apply (load_stops_at_corrupt_row "a" 3 corrupt64
           [("x", "a", Pickled [1; 0]%float)] ("y", "b", Garbage)
           [("z", "c", Pickled [0.9; 0.1]%float)]);
    [reflexivity | reflexivity | reflexivity
    | by apply Forall_singleton; eexists | reflexivity].
Defined.

(** C6, writing "a" and then "b" under the id "x" *)
Lemma add_texts_last_write_wins_witness :
  conn empty64 = ConnOpen ∧ well_formed empty64 ∧
  encode_batch ["b"] = [[0; 1]%float] ∧
  ∃ s1 s2,
    add_texts ["a"] (Some ["x"]) empty64 = (Ok ["x"], s1) ∧
    add_texts ["b"] (Some ["x"]) s1 = (Ok ["x"], s2) ∧
    dict_get "x" (vectors s2) = Some [0; 1]%float ∧
    dict_get "x" (texts s2) = Some "b" ∧
    entries "x" (vectors s2) = 1 ∧ entries "x" (texts s2) = 1 ∧
    rows_of "x" (rows s2) = [("x", "b", dumps [0; 1]%float)].
Proof.
  split_and!; [reflexivity | apply well_formed_init, NoDup_nil_2 | reflexivity |].
  apply (add_texts_last_write_wins "x" "a" "b" [0; 1]%float empty64);
    [reflexivity | apply well_formed_init, NoDup_nil_2 | reflexivity].
Defined.

(** C7, on two records written to an empty table *)
Lemma pickle_round_trip_witness :
  (∀ v, loads (dumps v) = Some v) ∧
  conn empty64 = ConnOpen ∧
  Forall (λ r, is_Some (loads r.2)) (rows empty64) ∧
  ∃ ids' s1 s2,
    add_texts ["a"; "c"] (Some ["x"; "z"]) empty64 = (Ok ids', s1) ∧
    _load_all_vectors (init (rows s1)) = (Ok tt, s2) ∧
    ∀ id t e,
      last_write id (zip3 ids' ["a"; "c"] (encode_batch ["a"; "c"])) = Some (t, e) →
      rows_of id (rows s1) = [(id, t, dumps e)] ∧
      dict_get id (vectors s2) = Some e ∧ dict_get id (texts s2) = Some t.
Proof.
  split_and!; [reflexivity | reflexivity | apply Forall_nil_2 |].
  apply (pickle_round_trip ["a"; "c"] (Some ["x"; "z"]) empty64);
    [reflexivity | reflexivity | apply Forall_nil_2].
Defined.

Example pickle_round_trip_c :
  ∃ s2, _load_all_vectors
          (init (rows (add_texts ["a"; "c"] (Some ["x"; "z"]) empty64).2)) =
          (Ok tt, s2) ∧
        dict_get "z" (vectors s2) = Some [0.9; 0.1]%float.
Proof. eexists. by vm_compute. Qed.

(** C8, on three texts *)
Lemma add_texts_default_ids_witness :
  conn abc64 = ConnOpen ∧
  ∃ s', add_texts ["c"; "b"; "a"] None abc64 = (Ok ["doc_0"; "doc_1"; "doc_2"], s') ∧
    length ["doc_0"; "doc_1"; "doc_2"] = 3 ∧
    (∀ i, i < 3 →
       ["doc_0"; "doc_1"; "doc_2"] !! i = Some ("doc_" +:+ pretty i)) ∧
    (length (encode_batch ["c"; "b"; "a"]) = 3 →
     ∀ i t, ["c"; "b"; "a"] !! i = Some t →
       dict_get ("doc_" +:+ pretty i) (texts s') = Some t).
Proof.
  split; [reflexivity|].
  apply (add_texts_default_ids ["c"; "b"; "a"] abc64). reflexivity.
Defined.

(** the ids of a batch restart at doc_0: a second batch without ids
    overwrites the records of the first *)
Example default_ids_collide :
  ∃ s1 s2,
    add_texts ["a"] None empty64 = (Ok ["doc_0"], s1) ∧
    add_texts ["b"] None s1 = (Ok ["doc_0"], s2) ∧
    texts s2 = [("doc_0", "b")].
Proof. eexists _, _. by vm_compute. Qed.

(** C10 on a user with two tokens, a user with none and an unknown user *)
Example decrement_token_runs :
  let db : Db.users := {[ "ann" := {| Db.tokens_remaining := 2; Db.pass_expiry := None |};
                          "bob" := {| Db.tokens_remaining := 0; Db.pass_expiry := None |} ]} in
  (Db.decrement_token "ann" db).1 = true ∧
  Db.tokens_of "ann" (Db.decrement_token "ann" db).2 = 1%Z ∧
  (Db.decrement_token "bob" db).1 = false ∧
  Db.tokens_of "bob" (Db.decrement_token "bob" db).2 = 0%Z ∧
  (Db.decrement_token "eve" db).1 = false ∧
  Db.tokens_of "eve" (Db.decrement_token "eve" db).2 = 0%Z.
Proof. by vm_compute. Qed.

(** a record of zeros against a query of zeros: 0 / (0 * 0 + 1e-8) = 0 *)
Example similarity_search_all_zeros :
  ∃ s, add_texts ["zeros"] (Some ["o"]) empty64 = (Ok ["o"], s) ∧
       (similarity_search "zeros" 3 s).1 = Ok [("zeros", 0%float)].
Proof. eexists. by vm_compute. Qed.

(** * Further properties of the store *)

Section Hydrating.
Context {F B : Type} `{!Numpy F} `{!Pickle F B} `{!Embedder F}.
Implicit Types (s : SimpleVectorStore F B).

Lemma insert_absent_keys (ks l : list string) :
  NoDup (ks ++ l) →
  foldl (λ ks k, if decide (k ∈ ks) then ks else ks ++ [k]) ks l = ks ++ l.
Proof.
  revert ks. induction l as [|k l IH]; intros ks Hnd; [by rewrite app_nil_r|].
  cbn [foldl]. apply NoDup_app in Hnd as (Hks & Hdis & Hl).
  rewrite decide_False by (intros Hin; apply (Hdis k Hin); left).
  rewrite IH, <- app_assoc; [done|].
  rewrite <- app_assoc. apply NoDup_app. split_and!; [done| |done].
  intros x Hx. by apply Hdis.
Qed.

Lemma rows_of_absent (t : table B) id :
  id ∉ row_id <$> t → rows_of id t = [].
Proof.
  unfold rows_of. induction t as [|r t IH]; [done|].
  rewrite fmap_cons, not_elem_of_cons. intros [Hne Hnin].
  rewrite (filter_cons_False (λ r0 : row B, row_id r0 = id)) by done.
  by apply IH.
Qed.

Lemma rows_of_NoDup (t : table B) r :
  NoDup (row_id <$> t) → r ∈ t → rows_of (row_id r) t = [r].
Proof.
  induction t as [|r' t IH]; intros Hnd Hin; [by apply elem_of_nil in Hin|].
  rewrite fmap_cons in Hnd. apply NoDup_cons in Hnd as [Hr' Hnd].
  unfold rows_of. apply elem_of_cons in Hin as [->|Hin].
  - rewrite (filter_cons_True (λ r0 : row B, row_id r0 = row_id r')) by done.
    f_equal. by apply rows_of_absent.
  - rewrite (filter_cons_False (λ r0 : row B, row_id r0 = row_id r));
      [by apply IH|].
    intros Heq. apply Hr'. rewrite Heq. apply list_elem_of_fmap. by exists r.
Qed.

(** X1: on an empty cache and an open connection, when every blob
    unpickles, the first [similarity_search] leaves the whole table in the
    cache: the ids in table order, each with the vector its blob unpickles
    to and the text of its row; the table itself is not changed. *)
Theorem hydration_loads_every_row query k s :
  vectors s = [] → conn s = ConnOpen →
  Forall (λ r, is_Some (loads r.2)) (rows s) →
  NoDup (row_id <$> rows s) →
  keys (vectors (similarity_search query k s).2) = row_id <$> rows s ∧
  rows (similarity_search query k s).2 = rows s ∧
  ∀ id t b, (id, t, b) ∈ rows s →
    dict_get id (vectors (similarity_search query k s).2) = loads b ∧
    dict_get id (texts (similarity_search query k s).2) = Some t.
Proof.
  intros He Hc Hload Hnd.
  rewrite similarity_search_empty, load_all_open by done.
  rewrite decide_True by by apply unpickled_all.
  rewrite rank_state, rows_foldl_cache_row.
  rewrite vectors_foldl_cache_row, texts_foldl_cache_row. split_and!; [|done|].
  - rewrite (keys_assignments (λ r, r.1.1) (λ r, r.2)), He.
    rewrite unpickled_ids by done. by apply (insert_absent_keys []).
  - intros id t b Hin.
    rewrite (dict_get_assignments (λ r, r.1.1) (λ r, r.2)).
    rewrite (dict_get_assignments (λ r, r.1.1) (λ r, r.1.2)).
    rewrite !unpickled_rows_of by done.
    pose proof (rows_of_NoDup (rows s) (id, t, b) Hnd Hin) as Hrow.
    cbn [row_id fst] in Hrow. rewrite Hrow.
    rewrite Forall_forall in Hload. destruct (Hload _ Hin) as [v Hv].
    cbn [snd] in Hv. cbn [unpickled]. by rewrite Hv.
Qed.

Lemma vectors_foldl_cache_row_nil l s :
  vectors (foldl cache_row s l) = [] → l = [].
Proof.
  rewrite vectors_foldl_cache_row.
  destruct l as [|x l _] using rev_ind; [done|].
  rewrite foldl_snoc. intros Hnil. exfalso. revert Hnil.
  generalize (foldl (λ d r, dict_set r.1.1 r.2 d) (vectors s) l).
  intros [|[k' v'] d]; cbn [dict_set]; [done|]. by case_decide.
Qed.

Lemma scorable_foldl_cache_row n l s :
  vectors s = [] → Forall (λ x, length x.2 = n) l →
  Forall (scorable n (texts (foldl cache_row s l)))
    (vectors (foldl cache_row s l)).
Proof.
  intros He Hl. apply Forall_forall. intros [id v] Hin.
  rewrite vectors_foldl_cache_row in Hin.
  apply elem_of_assignments in Hin as [Hin|(x & Hx & <- & <-)].
  { rewrite He in Hin. by apply elem_of_nil in Hin. }
  split; cbn [fst snd].
  - rewrite Forall_forall in Hl. by apply Hl.
  - apply dict_get_is_Some. rewrite texts_foldl_cache_row.
    apply elem_of_keys_assignments. right.
    apply list_elem_of_fmap. by exists x.
Qed.



(** X3: a load that a corrupt row aborted is not tried again when some
    row came before it: the next [similarity_search] finds the cache not
    empty, skips the table and returns a ranking of the rows before the
    corrupt one only, without any error. *)
Theorem partial_cache_is_served query k s good bad rest :
  vectors s = [] → conn s = ConnOpen →
  rows s = good ++ bad :: rest → good ≠ [] →
  Forall (loadable (length (encode query))) good → loads bad.2 = None →
  ∃ s1 res,
    similarity_search query k s = (Raise UnpicklingError, s1) ∧
    similarity_search query k s1 = (Ok res, s1) ∧
    (∀ id, id ∈ keys (vectors s1) ↔ id ∈ row_id <$> good) ∧
    (∀ text sim, (text, sim) ∈ res → ∃ id b, (id, text, b) ∈ good).
Proof.
  intros He Hc Hrows Hne Hgood Hbad.
  assert (Forall (λ r, is_Some (loads r.2)) good) as Hgood'.
  { eapply Forall_impl; [done|]. intros r (v & Hv & _). by exists v. }
  destruct (unpickled_corrupt good rest bad Hgood' Hbad) as [Hun Hlen].
  set (s1 := foldl cache_row s (unpickled good)).
  assert (similarity_search query k s = (Raise UnpicklingError, s1)) as Hfirst.
  { rewrite similarity_search_empty, load_all_open by done.
    by rewrite Hrows, Hun, decide_False by (rewrite length_app; cbn; lia). }
  assert (vectors s1 ≠ []) as Hne1.
  { intros Hnil%vectors_foldl_cache_row_nil. rewrite Hnil in Hlen.
    by destruct good. }
  assert (searchable query s1) as Hs1.
  { unfold searchable. rewrite decide_False by done.
    apply scorable_foldl_cache_row; [done|].
    apply Forall_forall. intros x (b & Hb & Hload)%elem_of_unpickled.
    rewrite Forall_forall in Hgood. destruct (Hgood _ Hb) as (v & Hv & Hl).
    cbn [snd] in Hv. congruence. }
  destruct (similarity_search_returns query k s1 Hs1) as (sims & Hrun & Hsims).
  assert (hydrated s1 = s1) as Hh by (unfold hydrated; by rewrite decide_False).
  rewrite Hh in Hrun, Hsims.
  exists s1, (slice_to k (sort_desc sims)). split_and!; [done..| |].
  - intros id. unfold s1. rewrite vectors_foldl_cache_row.
    rewrite (elem_of_keys_assignments (λ r, r.1.1) (λ r, r.2)).
    rewrite He, unpickled_ids by done. unfold keys.
    rewrite fmap_nil, elem_of_nil. tauto.
  - intros text sim Hin%elem_of_slice_to. rewrite sort_desc_perm in Hin.
    apply list_elem_of_lookup in Hin as [i Hi].
    destruct (Forall2_lookup_r _ _ _ _ _ Hsims Hi) as ([id v] & Hkv & Ht & _).
    cbn [fst snd] in Ht. unfold s1 in Ht, Hkv.
    rewrite texts_foldl_cache_row in Ht.
    rewrite (dict_get_assignments (λ r, r.1.1) (λ r, r.1.2)) in Ht.
    destruct (last (filter _ (unpickled good))) as [x|] eqn:Hlast.
    + injection Ht as <-.
      apply last_Some in Hlast as [l' Hl'].
      assert (x ∈ filter (λ x, x.1.1 = id) (unpickled good)) as Hx.
      { rewrite Hl'. apply elem_of_app. right. left. }
      apply list_elem_of_filter in Hx as [Hid Hx].
      apply elem_of_unpickled in Hx as (b & Hb & _).
      exists id, b. destruct x as [[id' t'] e']. cbn [fst snd] in *. by subst.
    + exfalso. apply list_elem_of_lookup_2 in Hkv.
      rewrite vectors_foldl_cache_row in Hkv.
      apply elem_of_assignments in Hkv as [Hkv|(x & Hx & Hid & _)].
      * rewrite He in Hkv. by apply elem_of_nil in Hkv.
      * apply last_None in Hlast.
        by apply (filter_nil_not_elem_of _ _ x Hlast).
Qed.

(** X4: once [close()] has run, [add_texts] raises the closed-database
    error before it writes anything, to the cache or to the table, and so
    does [similarity_search] when the cache is empty. *)
Theorem closed_store_rejects txts ids query k s :
  add_texts txts ids (close s).2 = (Raise ProgrammingError, (close s).2) ∧
  (vectors s = [] →
   similarity_search query k (close s).2 = (Raise ProgrammingError, (close s).2)).
Proof.
  split.
  - by apply add_texts_closed.
  - intros He. rewrite similarity_search_empty by done.
    by rewrite load_all_closed.
Qed.

(** X5: a cached vector whose length differs from the query embedding's
    makes [similarity_search] raise np.dot's ValueError; nothing is
    returned for the other records, and the store is left as it was. *)
Theorem mixed_dimensions_raise query k s :
  keys (vectors s) = keys (texts s) →
  Exists (λ kv, length kv.2 ≠ length (encode query)) (vectors s) →
  similarity_search query k s = (Raise ValueError, s).
Proof.
  intros Hk Hex.
  assert (vectors s ≠ []) as Hne by (intros Hnil; rewrite Hnil in Hex; by inversion Hex).
  rewrite similarity_search_cached by done. unfold rank.
  rewrite (bind_Ok _ _ s (vectors s) s) by done.
  assert (Forall (λ kv, is_Some (dict_get kv.1 (texts s))) (vectors s)) as Hts.
  { apply Forall_forall. intros [id v] Hin. apply dict_get_is_Some.
    rewrite <- Hk. apply list_elem_of_fmap. by exists (id, v). }
  revert Hex Hts. generalize (vectors s). intros l Hex Hts.
  match goal with
  | |- context [for_append l ?body] =>
      set (b := body);
      assert (for_append l b s = (Raise ValueError, s)) as Hloop
  end.
  { induction l as [|[id v] l IH]; [by inversion Hex|].
    apply Forall_cons in Hts as [[t Ht] Hts]. cbn [fst] in Ht.
    cbn [for_append].
    destruct (decide (length (encode query) = length v)) as [Hlen|Hlen].
    - rewrite (bind_Ok _ _ s (t, similarity (encode query) v) s).
      + rewrite (bind_Raise _ _ s ValueError s); [done|].
        apply IH; [|done]. apply Exists_cons in Hex as [Hv|Hex]; [|done].
        cbn [snd] in Hv. by rewrite Hlen in Hv.
      + unfold b, cosine, texts_getitem, mbind, M_bind.
        rewrite decide_True by done. unfold mret, M_ret. by rewrite Ht.
    - rewrite (bind_Raise _ _ s ValueError s); [done|].
      unfold b, cosine, mbind, M_bind. by rewrite decide_False. }
  by rewrite (bind_Raise _ _ s ValueError s Hloop).
Qed.

End Hydrating.

Section Backing.
Context {F B : Type} `{!Numpy F} `{!Pickle F B} `{!Embedder F}.
Implicit Types (s : SimpleVectorStore F B).

Lemma backed_foldl_upsert l s :
  (∀ v, loads (dumps v) = Some v) → backed s → backed (foldl upsert s l).
Proof.
  intros Hpickle Hs id v Hv.
  pose proof (foldl_upsert_at id l s) as Hat. cbv zeta in Hat.
  destruct (last_write id l) as [[t e]|].
  - destruct Hat as (Hve & Ht & Hrow). exists t, (dumps e).
    split_and!; [done..|]. rewrite Hpickle. congruence.
  - destruct Hat as (Hvs & Ht & Hrow). rewrite Hvs in Hv.
    destruct (Hs id v Hv) as (t & b & ? & ? & ?). exists t, b.
    split_and!; [congruence | congruence | done].
Qed.

Lemma backed_foldl_cache_row s :
  NoDup (row_id <$> rows s) → backed s →
  backed (foldl cache_row s (unpickled (rows s))).
Proof.
  intros Hnd Hs id v.
  rewrite vectors_foldl_cache_row, texts_foldl_cache_row, rows_foldl_cache_row.
  rewrite (dict_get_assignments (λ r, r.1.1) (λ r, r.2)).
  rewrite (dict_get_assignments (λ r, r.1.1) (λ r, r.1.2)).
  destruct (last (filter _ (unpickled (rows s)))) as [[[id' t] e]|] eqn:Hlast;
    [|apply Hs].
  cbn [fst snd]. intros [= ->].
  apply last_Some in Hlast as [l' Hl'].
  assert ((id', t, v) ∈ filter (λ x, x.1.1 = id) (unpickled (rows s))) as Hx.
  { rewrite Hl'. apply elem_of_app. right. left. }
  apply list_elem_of_filter in Hx as [Hid Hx]. cbn [fst] in Hid. subst id'.
  apply elem_of_unpickled in Hx as (b & Hb & Hload). cbn [fst snd] in *.
  exists t, b. split_and!; [done| |done].
  apply (rows_of_NoDup (rows s) (id, t, b) Hnd Hb).
Qed.

(** X6: the cache never holds what the table does not back. When pickle
    round-trips and the ids of the table are unique, each operation keeps
    this: every cached vector is what the one row of its id unpickles to,
    cached with that row's text. A fresh store (empty cache) starts so. *)
Theorem cache_stays_backed txts ids query k s :
  (∀ v, loads (dumps v) = Some v) →
  NoDup (row_id <$> rows s) → backed s →
  backed (add_texts txts ids s).2 ∧
  backed (similarity_search query k s).2 ∧
  backed (close s).2.
Proof.
  intros Hpickle Hnd Hs. split_and!; [| |done].
  - destruct (conn s) eqn:Hc.
    + rewrite add_texts_open by done. by apply backed_foldl_upsert.
    + by rewrite add_texts_closed.
  - destruct (similarity_search_state query k s) as [->| ->]; [done|].
    by apply backed_foldl_cache_row.
Qed.

Lemma backed_init (file : table B) : backed (init (F:=F) file).
Proof. by intros id v. Qed.

End Backing.

(** ** Writing the same ids again *)

Section FilterFacts.
Context {A : Type} (P : A → Prop) `{!∀ x, Decision (P x)}.

Lemma filter_all (l : list A) : Forall P l → filter P l = l.
Proof.
  induction 1 as [|x l Hx _ IH]; [done|].
  by rewrite filter_cons_True, IH.
Qed.

Lemma filter_none (l : list A) : Forall (λ x, ¬ P x) l → filter P l = [].
Proof.
  induction 1 as [|x l Hx _ IH]; [done|]. by rewrite filter_cons_False.
Qed.

End FilterFacts.

Section DictExt.
Context {V : Type}.
Implicit Types (d : dict V).

Lemma dict_ext d1 d2 :
  NoDup (keys d1) → keys d1 = keys d2 →
  (∀ k, dict_get k d1 = dict_get k d2) → d1 = d2.
Proof.
  unfold keys. revert d2.
  induction d1 as [|[k1 v1] d1 IH]; intros [|[k2 v2] d2] Hnd Hk Hget; try done.
  rewrite !fmap_cons in Hk. cbn [fst] in Hk. injection Hk as <- Hk.
  rewrite fmap_cons in Hnd. apply NoDup_cons in Hnd as [Hk1 Hnd].
  pose proof (Hget k1) as H1. cbn [dict_get] in H1.
  rewrite !decide_True in H1 by done. injection H1 as <-.
  f_equal. apply IH; [done..|]. intros k.
  destruct (decide (k = k1)) as [->|Hne].
  - rewrite (proj2 (dict_get_None k1 d1)) by done.
    symmetry. apply dict_get_None. unfold keys. by rewrite <- Hk.
  - specialize (Hget k). cbn [dict_get] in Hget.
    by rewrite !decide_False in Hget.
Qed.

Lemma insert_present_keys (ks l : list string) :
  Forall (λ k, k ∈ ks) l →
  foldl (λ ks k, if decide (k ∈ ks) then ks else ks ++ [k]) ks l = ks.
Proof.
  induction 1 as [|k l Hk _ IH]; [done|]. cbn [foldl].
  by rewrite decide_True.
Qed.

(** assigning again what a run of assignments has assigned changes nothing *)
Lemma assignments_twice {X} (key : X → string) (val : X → V) (l : list X) d :
  NoDup (keys d) →
  foldl (λ d x, dict_set (key x) (val x) d)
    (foldl (λ d x, dict_set (key x) (val x) d) d l) l =
  foldl (λ d x, dict_set (key x) (val x) d) d l.
Proof.
  intros Hnd. set (d1 := foldl _ d l).
  assert (NoDup (keys d1)) as Hnd1 by by apply NoDup_keys_assignments.
  symmetry. apply dict_ext; [done| |].
  - rewrite (keys_assignments key val l d1). symmetry.
    apply insert_present_keys, Forall_forall. intros k Hk.
    apply elem_of_keys_assignments. by right.
  - intros k. rewrite (dict_get_assignments key val l d1).
    destruct (last (filter (λ x, key x = k) l)) eqn:Hlast; [|done].
    unfold d1. by rewrite dict_get_assignments, Hlast.
Qed.

(** re-assigning keys that are all present adds no key *)
Lemma keys_assignments_present {X} (key : X → string) (val : X → V)
    (l : list X) d :
  Forall (λ x, key x ∈ keys d) l →
  keys (foldl (λ d x, dict_set (key x) (val x) d) d l) = keys d.
Proof.
  intros Hl. rewrite keys_assignments. apply insert_present_keys.
  by apply Forall_fmap.
Qed.

End DictExt.

Section ReIngest.
Context {F B : Type} `{!Numpy F} `{!Pickle F B} `{!Embedder F}.
Implicit Types (s : SimpleVectorStore F B) (l : list (string * string * list F)).

Let write (t : table B) (r : string * string * list F) : table B :=
  insert_or_replace r.1.1 r.1.2 (dumps r.2) t.

Lemma written_ids l (r : row B) : r ∈ foldl write [] l → row_id r ∈ l.*1.*1.
Proof.
  induction l as [|x l IH] using rev_ind; [by intros ?%elem_of_nil|].
  rewrite foldl_snoc, !fmap_app, elem_of_app. unfold write at 1, insert_or_replace.
  intros [[_ Hin]%list_elem_of_filter| ->%list_elem_of_singleton]%elem_of_app.
  - left. by apply IH.
  - right. left.
Qed.

(** a run of INSERT OR REPLACE keeps the rows of the other ids, in their
    order, and puts the rows it wrote after them *)
Lemma writes_split l (t : table B) :
  foldl write t l =
    filter (λ r, row_id r ∉ l.*1.*1) t ++ foldl write [] l.
Proof.
  induction l as [|x l IH] using rev_ind.
  - cbn [foldl]. rewrite app_nil_r. symmetry. apply filter_all, Forall_forall.
    intros r _. apply not_elem_of_nil.
  - rewrite !foldl_snoc, IH. unfold write at 1 3, insert_or_replace.
    rewrite filter_app, list_filter_filter, app_assoc. do 2 f_equal.
    apply list_filter_iff. intros r.
    rewrite !fmap_app, not_elem_of_app. cbn [fmap list_fmap].
    rewrite list_elem_of_singleton. tauto.
Qed.

Lemma writes_twice l (t : table B) :
  foldl write (foldl write t l) l = foldl write t l.
Proof.
  rewrite (writes_split l (foldl write t l)). rewrite (writes_split l t) at 1.
  rewrite filter_app, list_filter_filter_l by done.
  rewrite (filter_none _ (foldl write [] l)), app_nil_r.
  - symmetry. apply writes_split.
  - apply Forall_forall. intros r Hr Hnin. by apply Hnin, written_ids.
Qed.

(** X7: ingesting a batch a second time changes nothing: the call returns
    the same ids and leaves the store (both dicts, in order, and the
    table, in order) exactly as the first call left it. *)
Theorem add_texts_twice_is_once txts ids s :
  conn s = ConnOpen → well_formed s →
  ∃ r s1, add_texts txts ids s = (Ok r, s1) ∧
          add_texts txts ids s1 = (Ok r, s1).
Proof.
  intros Hc (Hk & Hnd & _). rewrite add_texts_open by done. cbv zeta.
  eexists _, _. split; [reflexivity|].
  rewrite add_texts_open by by rewrite conn_foldl_upsert. cbv zeta. f_equal.
  set (l := zip3 _ txts (encode_batch txts)).
  assert (∀ s1 s2 : SimpleVectorStore F B,
            vectors s1 = vectors s2 → texts s1 = texts s2 →
            conn s1 = conn s2 → rows s1 = rows s2 → s1 = s2) as Hext.
  { intros [] []. cbn. by intros -> -> -> ->. }
  apply Hext.
  - rewrite !vectors_foldl_upsert.
    by apply (assignments_twice (λ r, r.1.1) (λ r, r.2)).
  - rewrite !texts_foldl_upsert.
    apply (assignments_twice (λ r, r.1.1) (λ r, r.1.2)). by rewrite <- Hk.
  - by rewrite !conn_foldl_upsert.
  - rewrite !rows_foldl_upsert. apply writes_twice.
Qed.

(** X8: ids left out restart at doc_0 in every batch: a second batch
    without ids, no longer than the first, adds no record to the cache and
    replaces the text stored under doc_i by its own text at position i. *)
Theorem default_ids_overwrite txts1 txts2 s :
  conn s = ConnOpen →
  length (encode_batch txts1) = length txts1 →
  length (encode_batch txts2) = length txts2 →
  length txts2 ≤ length txts1 →
  ∃ ids1 ids2 s1 s2,
    add_texts txts1 None s = (Ok ids1, s1) ∧
    add_texts txts2 None s1 = (Ok ids2, s2) ∧
    keys (vectors s2) = keys (vectors s1) ∧
    ∀ i t, txts2 !! i = Some t →
      ids2 !! i = ids1 !! i ∧
      dict_get ("doc_" +:+ pretty i) (texts s2) = Some t.
Proof.
  intros Hc Henc1 Henc2 Hle.
  set (l1 := zip3 (default_ids (length txts1)) txts1 (encode_batch txts1)).
  set (s1 := foldl upsert s l1).
  assert (conn s1 = ConnOpen) as Hc1 by (unfold s1; by rewrite conn_foldl_upsert).
  set (l2 := zip3 (default_ids (length txts2)) txts2 (encode_batch txts2)).
  exists (default_ids (length txts1)), (default_ids (length txts2)), s1,
    (foldl upsert s1 l2).
  split_and!; [by rewrite add_texts_open by done..| |].
  - rewrite vectors_foldl_upsert.
    apply (keys_assignments_present (λ r, r.1.1) (λ r, r.2)).
    apply Forall_forall. intros r Hr. unfold s1.
    rewrite vectors_foldl_upsert.
    apply (elem_of_keys_assignments (λ r, r.1.1) (λ r, r.2)). right.
    assert (r.1.1 ∈ l2.*1.*1) as Hid.
    { apply list_elem_of_fmap. exists r.1. split; [done|].
      apply list_elem_of_fmap. by exists r. }
    unfold l2 in Hid. rewrite zip3_ids, Henc2, Nat.min_id in Hid.
    change ((λ r0 : row (list F), r0.1.1) <$> l1) with ((fst ∘ fst) <$> l1).
    rewrite (list_fmap_compose fst fst).
    unfold l1. rewrite zip3_ids, Henc1, Nat.min_id.
    apply elem_of_take in Hid as (i & Hi & Hlt).
    apply elem_of_take. exists i. split; [|lia].
    unfold default_ids in *. rewrite list_lookup_fmap in Hi |- *.
    rewrite lookup_seq_lt in Hi by lia. by rewrite lookup_seq_lt by lia.
  - intros i t Hi.
    assert (i < length txts2) as Hlt by by eapply lookup_lt_Some.
    split.
    { unfold default_ids. rewrite !list_lookup_fmap.
      by rewrite !lookup_seq_lt by lia. }
    destruct (lookup_lt_is_Some_2 (encode_batch txts2) i) as [e He]; [lia|].
    assert (l2 !! i = Some ("doc_" +:+ pretty i, t, e)) as Hl.
    { apply zip3_lookup; [|done..]. unfold default_ids.
      by rewrite list_lookup_fmap, lookup_seq_lt. }
    assert (NoDup l2.*1.*1) as Hnd.
    { unfold l2. rewrite zip3_ids, Henc2, Nat.min_id.
      rewrite take_ge by (unfold default_ids; by rewrite length_fmap, length_seq).
      apply NoDup_fmap_2; [|apply NoDup_seq].
      intros a b Hab. by apply String.app_inj, pretty_nat_inj in Hab. }
    pose proof (foldl_upsert_at ("doc_" +:+ pretty i) l2 s1) as Hat.
    cbv zeta in Hat. rewrite (last_write_NoDup _ t e l2 i Hnd Hl) in Hat.
    by destruct Hat as (_ & -> & _).
Qed.

End ReIngest.

(** ** The process-wide store *)

Section Restart.
Context {F B : Type} `{!Numpy F} `{!Pickle F B} `{!Embedder F}.

(** X9: what [add_texts] wrote through the process-wide store survives
    [close_vector_store()]: the next [get_vector_store()] builds a new
    store with an empty cache on the same table, and the first
    [similarity_search] on it reloads, for every id of the batch, the
    vector and the text last written for it (when pickle round-trips and
    the rows already in the file unpickle). *)
Theorem records_survive_restart txts ids query k (file : table B) :
  (∀ v, loads (dumps v) = Some v) →
  Forall (λ r, is_Some (loads r.2)) file →
  ∃ ids' p1 r3 p3 s3,
    on_store (add_texts txts ids) (start file) = (Ok ids', p1) ∧
    _store (close_vector_store p1) = None ∧
    (get_vector_store (close_vector_store p1)).1 = init (disk p1) ∧
    on_store (similarity_search query k) (close_vector_store p1) = (r3, p3) ∧
    _store p3 = Some s3 ∧
    ∀ id t e,
      last_write id (zip3 ids' txts (encode_batch txts)) = Some (t, e) →
      dict_get id (vectors s3) = Some e ∧ dict_get id (texts s3) = Some t.
Proof.
  intros Hpickle Hfile.
  set (ids' := match ids with Some i => i | None => default_ids (length txts) end).
  set (l := zip3 ids' txts (encode_batch txts)).
  set (s1 := foldl upsert (init file) l).
  set (p1 := {| _store := Some s1; disk := rows s1 |}).
  assert (on_store (add_texts txts ids) (start file) = (Ok ids', p1)) as Hadd.
  { unfold on_store, get_vector_store, start. cbn [_store disk].
    by rewrite add_texts_open by done. }
  assert (close_vector_store p1 = start (rows s1)) as Hclose by done.
  assert (Forall (λ r, is_Some (loads r.2)) (rows s1)) as Hrows1.
  { apply Forall_rows_foldl_upsert; [done|]. apply Forall_forall.
    intros r _. cbn [snd]. by rewrite Hpickle. }
  destruct (similarity_search query k (init (rows s1))) as [r3 s3] eqn:Hrun.
  exists ids', p1, r3, {| _store := Some s3; disk := rows s3 |}, s3.
  rewrite Hclose. unfold on_store at 2. unfold get_vector_store, start.
  cbn [_store disk fst]. rewrite Hrun.
  split_and!; [done..|]. intros id t e Hlast.
  assert (s3 = foldl cache_row (init (rows s1)) (unpickled (rows s1))) as ->.
  { pose proof (f_equal snd Hrun) as Hst. cbn [snd] in Hst. rewrite <- Hst.
    rewrite similarity_search_empty, load_all_open by done. cbn [init rows].
    rewrite decide_True by by apply unpickled_all. apply rank_state. }
  pose proof (foldl_upsert_at id l (init file)) as Hat. cbv zeta in Hat.
  fold l in Hlast. rewrite Hlast in Hat. destruct Hat as (_ & _ & Hrow).
  fold s1 in Hrow.
  rewrite vectors_foldl_cache_row, texts_foldl_cache_row.
  rewrite (dict_get_assignments (λ r, r.1.1) (λ r, r.2)).
  rewrite (dict_get_assignments (λ r, r.1.1) (λ r, r.1.2)).
  rewrite unpickled_rows_of, Hrow by done.
  cbn [unpickled]. by rewrite Hpickle.
Qed.

End Restart.

(** * Further properties of db.py *)

Section MoreTokens.
Import Db.
Implicit Types (db : users).

(** X10: [get_or_create_user] returns the row the table holds afterwards;
    a second call returns the same row and inserts nothing more; an
    unknown user gets a row with no tokens and no pass; no other row is
    touched. *)
Theorem get_or_create_user_stable user_id db :
  (get_or_create_user user_id db).2 !! user_id =
    Some (get_or_create_user user_id db).1 ∧
  get_or_create_user user_id (get_or_create_user user_id db).2 =
    get_or_create_user user_id db ∧
  (db !! user_id = None → (get_or_create_user user_id db).1 = new_user) ∧
  (∀ other, other ≠ user_id →
     (get_or_create_user user_id db).2 !! other = db !! other).
Proof.
  unfold get_or_create_user. destruct (db !! user_id) as [u|] eqn:Hu;
    cbn [fst snd].
  - rewrite Hu. by split_and!.
  - rewrite lookup_insert_eq. split_and!; try done.
    intros other Hne. by apply lookup_insert_ne.
Qed.



Lemma decrement_token_tokens user_id db :
  (decrement_token user_id db).1 = (0 <? tokens_of user_id db)%Z ∧
  tokens_of user_id (decrement_token user_id db).2 =
    (if (0 <? tokens_of user_id db)%Z then tokens_of user_id db - 1
     else tokens_of user_id db)%Z.
Proof.
  rewrite !tokens_of_lookup.
  unfold decrement_token, get_or_create_user, update_tokens.
  destruct (db !! user_id) as [u|] eqn:Hu.
  - destruct (0 <? tokens_remaining u)%Z; cbn [fst snd].
    + by rewrite lookup_alter_eq, Hu.
    + by rewrite Hu.
  - cbn. by rewrite lookup_insert_eq.
Qed.

(** X12: of [n] calls of [decrement_token] in a row for a user whose
    count c is not negative, exactly min(n, c) return True, and the count
    ends at max(c - n, 0): tokens are spent one by one and never
    overdrawn. *)
Theorem spend_counts n user_id db :
  (0 ≤ tokens_of user_id db)%Z →
  Z.of_nat (spend n user_id db).1 = Z.min (Z.of_nat n) (tokens_of user_id db) ∧
  tokens_of user_id (spend n user_id db).2 =
    Z.max (tokens_of user_id db - Z.of_nat n) 0.
Proof.
  revert db. induction n as [|n IH]; intros db Hc.
  - cbn [spend fst snd]. lia.
  - cbn [spend]. destruct (decrement_token_tokens user_id db) as [Hok Hleft].
    destruct (decrement_token user_id db) as [ok db'] eqn:Hd. cbn [fst snd] in *.
    assert (0 ≤ tokens_of user_id db')%Z as Hc'
      by (rewrite Hleft; destruct (Z.ltb_spec 0 (tokens_of user_id db)); lia).
    destruct (IH db' Hc') as [Hm Hdb].
    destruct (spend n user_id db') as [m db''] eqn:Hs. cbn [fst snd] in *.
    subst ok. rewrite Hdb.
    destruct (0 <? tokens_of user_id db)%Z eqn:E;
      [apply Z.ltb_lt in E | apply Z.ltb_ge in E]; rewrite Hleft in *; lia.
Qed.

End MoreTokens.

Section MorePass.
Import Db DbPass.
Context {T : Type} `{!Datetime T}.
Implicit Types (db : users) (now : T).

(** X13: [has_valid_pass] answers True exactly when the user already has
    a row whose expiry is a non-empty string that parses to a time later
    than now; an unknown user, a missing or empty expiry, an expiry that
    does not parse and times that do not compare all give False. The only
    thing the call may write is the row of an unknown user. *)
Theorem has_valid_pass_iff now user_id db :
  ((has_valid_pass now user_id db).1 = true ↔
   ∃ row expiry exp_dt,
     db !! user_id = Some row ∧ pass_expiry row = Some expiry ∧
     expiry ≠ "" ∧ fromisoformat expiry = Some exp_dt ∧
     dt_gt exp_dt now = Some true) ∧
  (has_valid_pass now user_id db).2 = (get_or_create_user user_id db).2.
Proof.
  split; [split|].
  - unfold has_valid_pass, get_or_create_user.
    destruct (db !! user_id) as [row|] eqn:Hrow; cbn [new_user pass_expiry];
      [|done].
    destruct (pass_expiry row) as [expiry|] eqn:He; [|done].
    destruct (decide (expiry = "")); [done|].
    destruct (fromisoformat expiry) as [exp_dt|] eqn:Hp; [|done].
    destruct (dt_gt exp_dt now) as [b|] eqn:Hgt; [|done].
    cbn [fst]. intros ->. by exists row, expiry, exp_dt.
  - intros (row & expiry & exp_dt & Hrow & He & Hne & Hp & Hgt).
    unfold has_valid_pass, get_or_create_user.
    by rewrite Hrow, He, decide_False, Hp, Hgt.
  - unfold has_valid_pass, get_or_create_user.
    destruct (db !! user_id) as [row|]; cbn [new_user pass_expiry]; [|done].
    destruct (pass_expiry row) as [expiry|]; [|done].
    destruct (decide (expiry = "")); [done|].
    destruct (fromisoformat expiry) as [exp_dt|]; [|done].
    by destruct (dt_gt exp_dt now).
Qed.

(** X14: after [set_pass_expiry(user_id, days)] at time now0, when
    now0 + days is a time that isoformat prints and fromisoformat reads
    back, [has_valid_pass(user_id)] at time now answers whether
    now0 + days > now (False when the two do not compare), writes
    nothing, and the user's tokens and the other users are as before. *)
Theorem pass_valid_until_expiry now0 now user_id days db exp_dt :
  dt_add_days now0 days = Some exp_dt →
  fromisoformat (isoformat exp_dt) = Some exp_dt →
  isoformat exp_dt ≠ "" →
  ∃ db', set_pass_expiry now0 user_id days db = Some db' ∧
    has_valid_pass now user_id db' = (default false (dt_gt exp_dt now), db') ∧
    tokens_of user_id db' = tokens_of user_id db ∧
    ∀ other, other ≠ user_id → db' !! other = db !! other.
Proof.
  intros Hadd Hparse Hne. unfold set_pass_expiry. rewrite Hadd.
  exists (alter (λ u, {| tokens_remaining := tokens_remaining u;
                         pass_expiry := Some (isoformat exp_dt) |})
            user_id (get_or_create_user user_id db).2).
  split; [by destruct (get_or_create_user user_id db)|].
  rewrite !tokens_of_lookup.
  unfold has_valid_pass, get_or_create_user.
  destruct (db !! user_id) as [row|] eqn:Hrow; cbn [fst snd].
  - rewrite !lookup_alter_eq, Hrow. cbn. rewrite decide_False by done.
    rewrite Hparse. split_and!; [by destruct (dt_gt exp_dt now) | done |].
    intros other Hother. by rewrite lookup_alter_ne.
  - rewrite !lookup_alter_eq, lookup_insert_eq. cbn.
    rewrite decide_False by done.
    rewrite Hparse. split_and!; [by destruct (dt_gt exp_dt now) | done |].
    intros other Hother. by rewrite lookup_alter_ne, lookup_insert_ne.
Qed.

End MorePass.

(** ** Ties and batches *)

Section Stability.
Context {F B : Type} `{!Numpy F} `{!Pickle F B} `{!Embedder F}.
Implicit Types (s : SimpleVectorStore F B) (l : list (string * F)).






End Stability.

(** * The further properties on the instances *)

(** X1, on a fresh store over the table of the three records *)
Lemma hydration_loads_every_row_witness :
  vectors reopened64 = [] ∧ conn reopened64 = ConnOpen ∧
  Forall (λ r, is_Some (loads r.2)) (rows reopened64) ∧
  NoDup (row_id <$> rows reopened64) ∧
  keys (vectors (similarity_search "a" 3 reopened64).2) =
    row_id <$> rows reopened64 ∧
  rows (similarity_search "a" 3 reopened64).2 =
    rows reopened64 ∧
  ∀ id t b, (id, t, b) ∈ rows reopened64 →
    dict_get id (vectors (similarity_search "a" 3 reopened64).2) =
      loads b ∧
    dict_get id (texts (similarity_search "a" 3 reopened64).2) = Some t.
Proof.
  assert (Forall (λ r : row blob, is_Some (loads r.2)) (rows reopened64))
    as Hload by (repeat apply Forall_cons_2; try apply Forall_nil_2; by eexists).
  assert (NoDup (row_id <$> rows reopened64)) as Hnd
    by (apply (bool_decide_unpack _); by vm_compute).
  split_and!; [reflexivity | reflexivity | exact Hload | exact Hnd |..];
    by apply (hydration_loads_every_row "a" 3 reopened64).
Defined.


(** X3, on the table whose second row is corrupt *)
Lemma partial_cache_is_served_witness :
  vectors corrupt64 = [] ∧ conn corrupt64 = ConnOpen ∧
  rows corrupt64 =
    [("x", "a", Pickled [1; 0]%float)] ++ ("y", "b", Garbage) ::
    [("z", "c", Pickled [0.9; 0.1]%float)] ∧
  [("x", "a", Pickled [1; 0]%float)] ≠ [] ∧
  Forall (loadable (length (encode "a"))) [("x", "a", Pickled [1; 0]%float)] ∧
  loads ("y", "b", Garbage).2 = None ∧
  ∃ s1 res,
    similarity_search "a" 3 corrupt64 = (Raise UnpicklingError, s1) ∧
    similarity_search "a" 3 s1 = (Ok res, s1) ∧
    (∀ id, id ∈ keys (vectors s1) ↔
           id ∈ row_id <$> [("x", "a", Pickled [1; 0]%float)]) ∧
    (∀ text sim, (text, sim) ∈ res →
       ∃ id b, (id, text, b) ∈ [("x", "a", Pickled [1; 0]%float)]).
Proof.
  assert (Forall (loadable (length (encode "a")))
            [("x", "a", Pickled [1; 0]%float)]) as Hgood
    by (apply Forall_singleton; by eexists).
  split_and!; [reflexivity | reflexivity | reflexivity | done | exact Hgood
              | reflexivity |].
  by apply (partial_cache_is_served "a" 3 corrupt64
              [("x", "a", Pickled [1; 0]%float)] ("y", "b", Garbage)
              [("z", "c", Pickled [0.9; 0.1]%float)]).
Defined.

(** X5, on the store a first search has filled from a table that holds a
    vector of another dimension *)
Lemma mixed_dimensions_raise_witness :
  keys (vectors (similarity_search "a" 3 mixed64).2) =
    keys (texts (similarity_search "a" 3 mixed64).2) ∧
  Exists (λ kv, length kv.2 ≠ length (encode "a"))
    (vectors (similarity_search "a" 3 mixed64).2) ∧
  similarity_search "a" 3 (similarity_search "a" 3 mixed64).2 =
    (Raise ValueError, (similarity_search "a" 3 mixed64).2).
Proof.
  assert (Exists (λ kv : string * list float, length kv.2 ≠ length (encode "a"))
            (vectors (similarity_search "a" 3 mixed64).2)) as Hex
    by (apply Exists_cons_tl, Exists_cons_hd; by vm_compute).
  split_and!; [reflexivity | exact Hex |].
  by apply (mixed_dimensions_raise "a" 3 (similarity_search "a" 3 mixed64).2).
Defined.

Lemma backed_abc64 : backed abc64.
Proof.
  apply (backed_foldl_upsert
           [("x", "a", embed "a"); ("y", "b", embed "b"); ("z", "c", embed "c")]
           empty64); [done | apply backed_init].
Qed.

Lemma NoDup_rows_abc64 : NoDup (row_id <$> rows abc64).
Proof. apply (bool_decide_unpack _). by vm_compute. Qed.

(** X6, on the store of three records *)
Lemma cache_stays_backed_witness :
  (∀ v, loads (dumps v) = Some v) ∧
  NoDup (row_id <$> rows abc64) ∧ backed abc64 ∧
  backed (add_texts ["b"] (Some ["x"]) abc64).2 ∧
  backed (similarity_search "a" 3 abc64).2 ∧
  backed (close abc64).2.
Proof.
  split_and!; [reflexivity | apply NoDup_rows_abc64 | apply backed_abc64 |..];
    apply (cache_stays_backed ["b"] (Some ["x"]) "a" 3 abc64);
    first [reflexivity | apply NoDup_rows_abc64 | apply backed_abc64].
Defined.

(** X7, ingesting ["a"; "b"] under ["x"; "y"] twice *)
Lemma add_texts_twice_is_once_witness :
  conn empty64 = ConnOpen ∧ well_formed empty64 ∧
  ∃ r s1, add_texts ["a"; "b"] (Some ["x"; "y"]) empty64 = (Ok r, s1) ∧
          add_texts ["a"; "b"] (Some ["x"; "y"]) s1 = (Ok r, s1).
Proof.
  split_and!; [reflexivity | apply well_formed_init, NoDup_nil_2 |].
  apply (add_texts_twice_is_once ["a"; "b"] (Some ["x"; "y"]) empty64);
    [reflexivity | apply well_formed_init, NoDup_nil_2].
Defined.

(** X8, a batch of two texts after a batch of three *)
Lemma default_ids_overwrite_witness :
  conn empty64 = ConnOpen ∧
  length (encode_batch ["a"; "b"; "c"]) = length ["a"; "b"; "c"] ∧
  length (encode_batch ["c"; "a"]) = length ["c"; "a"] ∧
  length ["c"; "a"] ≤ length ["a"; "b"; "c"] ∧
  ∃ ids1 ids2 s1 s2,
    add_texts ["a"; "b"; "c"] None empty64 = (Ok ids1, s1) ∧
    add_texts ["c"; "a"] None s1 = (Ok ids2, s2) ∧
    keys (vectors s2) = keys (vectors s1) ∧
    ∀ i t, ["c"; "a"] !! i = Some t →
      ids2 !! i = ids1 !! i ∧
      dict_get ("doc_" +:+ pretty i) (texts s2) = Some t.
Proof.
  split_and!; [reflexivity | reflexivity | reflexivity | cbn; lia |].
  apply (default_ids_overwrite ["a"; "b"; "c"] ["c"; "a"] empty64);
    [reflexivity | reflexivity | reflexivity | cbn; lia].
Defined.

(** X9, two records written to an empty file *)
Lemma records_survive_restart_witness :
  (∀ v, loads (dumps v) = Some v) ∧
  Forall (λ r : row blob, is_Some (loads r.2)) [] ∧
  ∃ ids' p1 r3 p3 s3,
    on_store (add_texts ["a"; "c"] (Some ["x"; "z"])) (start []) = (Ok ids', p1) ∧
    _store (close_vector_store p1) = None ∧
    (get_vector_store (close_vector_store p1)).1 = init (disk p1) ∧
    on_store (similarity_search "a" 3) (close_vector_store p1) = (r3, p3) ∧
    _store p3 = Some s3 ∧
    ∀ id t e,
      last_write id (zip3 ids' ["a"; "c"] (encode_batch ["a"; "c"])) = Some (t, e) →
      dict_get id (vectors s3) = Some e ∧ dict_get id (texts s3) = Some t.
Proof.
  split_and!; [reflexivity | apply Forall_nil_2 |].
  apply (records_survive_restart ["a"; "c"] (Some ["x"; "z"]) "a" 3 []);
    [reflexivity | apply Forall_nil_2].
Defined.

Import DbPass.

(** X12, five calls for a user with two tokens *)
Lemma spend_counts_witness :
  let db : Db.users :=
    {[ "ann" := {| Db.tokens_remaining := 2; Db.pass_expiry := None |} ]} in
  (0 ≤ Db.tokens_of "ann" db)%Z ∧
  Z.of_nat (spend 5 "ann" db).1 = Z.min 5 (Db.tokens_of "ann" db) ∧
  Db.tokens_of "ann" (spend 5 "ann" db).2 =
    Z.max (Db.tokens_of "ann" db - 5) 0.
Proof.
  cbv zeta. split; [by vm_compute|].
  apply (spend_counts 5 "ann"
           {[ "ann" := {| Db.tokens_remaining := 2; Db.pass_expiry := None |} ]}).
  by vm_compute.
Defined.

Example spend_two_of_five :
  (spend 5 "ann"
     {[ "ann" := {| Db.tokens_remaining := 2; Db.pass_expiry := None |} ]}).1 = 2.
Proof. by vm_compute. Qed.

(** X14, a pass of 30 days bought at time 0 by an unknown user, checked at
    time 100 *)
Lemma pass_valid_until_expiry_witness :
  dt_add_days 0%Z 30 = Some 2592000%Z ∧
  fromisoformat (isoformat 2592000%Z) = Some 2592000%Z ∧
  isoformat 2592000%Z ≠ "" ∧
  ∃ db', DbPass.set_pass_expiry 0%Z "ann" 30 ∅ = Some db' ∧
    DbPass.has_valid_pass 100%Z "ann" db' =
      (default false (dt_gt 2592000%Z 100%Z), db') ∧
    Db.tokens_of "ann" db' = Db.tokens_of "ann" ∅ ∧
    ∀ other, other ≠ "ann" → db' !! other = (∅ : Db.users) !! other.
Proof.
  split_and!; [reflexivity | by vm_compute | by vm_compute |].
  apply (pass_valid_until_expiry 0%Z 100%Z "ann" 30 ∅ 2592000%Z);
    [reflexivity | by vm_compute | by vm_compute].
Defined.

(** the pass is valid before its expiry and not after; a pass of no days
    is never valid *)
Example pass_runs :
  ∃ db' db0,
    DbPass.set_pass_expiry 0%Z "ann" 30 ∅ = Some db' ∧
    (DbPass.has_valid_pass 100%Z "ann" db').1 = true ∧
    (DbPass.has_valid_pass 2592000%Z "ann" db').1 = false ∧
    (DbPass.has_valid_pass 100%Z "bob" db').1 = false ∧
    DbPass.set_pass_expiry 100%Z "ann" 0 ∅ = Some db0 ∧
    (DbPass.has_valid_pass 100%Z "ann" db0).1 = false.
Proof. eexists _, _. by vm_compute. Qed.



Example repeated_id_in_a_batch :
  (add_texts ["a"; "b"] (Some ["x"; "x"]) empty64).2 =
    {| vectors := [("x", [0; 1]%float)]; texts := [("x", "b")];
       conn := ConnOpen; rows := [("x", "b", Pickled [0; 1]%float)] |}.
Proof. by vm_compute. Qed.
